(** * Localhost job handler ([lithops/localhost/local_handler.py])

    A shallow embedding of the handler: the Python values it moves around,
    the producer side ([LocalhostExecutor.__init__], [_invoke], [run], the
    [run] branch of [__main__]), the worker loop ([_process_runner]) and an
    interleaving semantics of the producer with the worker pool. *)

From Stdlib Require Import ZArith Lia Ascii String.
From Stdlib Require Import DecimalString DecimalNat DecimalFacts.
From stdpp Require Import base option list strings gmap sorting relations.

Local Open Scope string_scope.
Local Open Scope list_scope.
Local Open Scope nat_scope.

(** ** Python values, exceptions and the few builtins the handler uses *)

Module Py.

#[local] Set Warnings "-register-all".

(** What [json.load] can return, plus what the handler itself builds.
    A [str] is a sequence of characters; a float is kept as its literal. *)
Inductive value :=
| VNone
| VBool (b : bool)
| VInt (z : Z)
| VFloat (literal : string)
| VStr (s : string)
| VList (l : list value)
| VDict (d : list (string * value)).

(** A dict with string keys, in insertion order. *)
Definition dict := list (string * value).

Inductive exn :=
| AttributeError (name : string)
| KeyError (key : string)
| NameError (name : string)
| IndexError
| TypeError
| ValueError
| KeyboardInterrupt
| Raised (what : string).

Inductive result (A : Type) :=
| Ok (a : A)
| Err (e : exn).
Arguments Ok {A} a.
Arguments Err {A} e.

Fixpoint dict_get (k : string) (d : dict) : option value :=
  match d with
  | [] => None
  | (k', v) :: d' => if String.eqb k k' then Some v else dict_get k d'
  end.

(** [d[k] = v]: an existing key keeps its position, a new key goes last. *)
Fixpoint dict_set (k : string) (v : value) (d : dict) : dict :=
  match d with
  | [] => [(k, v)]
  | (k', v') :: d' =>
      if String.eqb k k' then (k, v) :: d' else (k', v') :: dict_set k v d'
  end.

Definition keys (d : dict) : list string := d.*1.

(** [obj.name] on a [SimpleNamespace] whose attributes are [ns]. *)
Definition getattr (ns : dict) (name : string) : result value :=
  match dict_get name ns with
  | Some v => Ok v
  | None => Err (AttributeError name)
  end.

(** [SimpleNamespace] built from the entries of [v], which has to be a
    mapping. *)
Definition namespace (v : value) : result dict :=
  match v with
  | VDict d => Ok d
  | _ => Err TypeError
  end.

(** [v[key]] with a string key. *)
Definition getitem_str (v : value) (key : string) : result value :=
  match v with
  | VDict d =>
      match dict_get key d with
      | Some x => Ok x
      | None => Err (KeyError key)
      end
  | _ => Err TypeError
  end.

Fixpoint string_nth (s : string) (i : nat) : option ascii :=
  match s, i with
  | EmptyString, _ => None
  | String c _, O => Some c
  | String _ s', S i' => string_nth s' i'
  end.

(** The text of a non-negative [int], as [str] and ["{:d}"] print it. *)
Definition str_of_nat (n : nat) : string :=
  NilEmpty.string_of_uint (Nat.to_uint n).

(** [v[i]] with a non-negative [int] index.  The keys of a dict read from
    JSON are strings, so an [int] is never among them. *)
Definition getitem_int (v : value) (i : nat) : result value :=
  match v with
  | VList l =>
      match l !! i with
      | Some x => Ok x
      | None => Err IndexError
      end
  | VStr s =>
      match string_nth s i with
      | Some c => Ok (VStr (String c EmptyString))
      | None => Err IndexError
      end
  | VDict _ => Err (KeyError (str_of_nat i))
  | _ => Err TypeError
  end.

(** [v[key] = x] with a string key, on the value held in [v]. *)
Definition setitem_str (v : value) (key : string) (x : value) : result value :=
  match v with
  | VDict d => Ok (VDict (dict_set key x d))
  | _ => Err TypeError
  end.

(** [range(v)] as the list of its indices.  [bool] is a subclass of [int]. *)
Definition range (v : value) : result (list nat) :=
  match v with
  | VInt z => Ok (seq 0 (Z.to_nat z))
  | VBool b => Ok (seq 0 (if b then 1 else 0))
  | _ => Err TypeError
  end.

Fixpoint zeros (n : nat) : string :=
  match n with
  | O => EmptyString
  | S n' => String "0" (zeros n')
  end.

(** A string of digits filled with zeros on the left up to [width]; a
    longer string is left as it is. *)
Definition zero_pad (width : nat) (s : string) : string :=
  zeros (width - String.length s) +:+ s.

(** ["{:05d}".format(i)] for [i >= 0]. *)
Definition format_05d (i : nat) : string := zero_pad 5 (str_of_nat i).

(** [int(s)] for a string of decimal digits. *)
Definition int (s : string) : result nat :=
  match NilEmpty.uint_of_string s with
  | Some Decimal.Nil => Err ValueError
  | Some d => Ok (Nat.of_uint d)
  | None => Err ValueError
  end.

Fixpoint count_char (c : ascii) (s : string) : nat :=
  match s with
  | EmptyString => 0
  | String a s' => (if Ascii.eqb a c then 1 else 0) + count_char c s'
  end.

Fixpoint replace_char_all (c : ascii) (new : string) (s : string) : string :=
  match s with
  | EmptyString => EmptyString
  | String a s' =>
      if Ascii.eqb a c then new +:+ replace_char_all c new s'
      else String a (replace_char_all c new s')
  end.

Fixpoint replace_char_first (n : nat) (c : ascii) (new : string) (s : string)
  : string :=
  match n, s with
  | O, _ => s
  | _, EmptyString => EmptyString
  | S n', String a s' =>
      if Ascii.eqb a c then new +:+ replace_char_first n' c new s'
      else String a (replace_char_first n c new s')
  end.

(** [s.replace(c, new, count)] for a one-character [c]: a negative [count]
    replaces every occurrence. *)
Definition replace_char (c : ascii) (new : string) (count : Z) (s : string)
  : string :=
  if (count <? 0)%Z then replace_char_all c new s
  else replace_char_first (Z.to_nat count) c new s.

End Py.

Import Py.

(** ** The handler's environment

    Everything the module takes from the platform or from modules of the
    package that are not part of this file. *)

Record env := {
  (** [mp.cpu_count()] *)
  CPU_COUNT : Z;
  (** [is_unix_system()] *)
  is_unix_system : bool;
  (** [logging.getLevelName(logger.getEffectiveLevel())] *)
  effective_level : string;
  (** [lithops.__version__] *)
  __version__ : string;
  (** [JOBS_DONE_DIR] *)
  JOBS_DONE_DIR : string;
  (** [version_str(sys.version_info)] *)
  python_version : string;
  (** the successive readings of [time.time()] *)
  time_time : nat → value;
  (** [str(v)], as ["{}".format(v)] prints a value *)
  py_str : value → string;
  (** [json.dumps] *)
  json_dumps : value → string;
  (** [function_handler(event)] run inside the capture scope: the text that
      ends up in the call's buffer, and the exception it raises, if any *)
  function_handler : dict → string * option exn;
}.

(** ** The producer: [LocalhostExecutor] in the handler process *)

(** What [sys.stdout] and [sys.stderr] can point to: the console the
    process was started with, the stream opened on [LH_LOG_FILE], or the
    [StringIO] of iteration [iteration] of worker [worker]. *)
Inductive target :=
| Console
| LogFileStream
| Buffer (worker iteration : nat).

Record stdio := { sys_stdout : target; sys_stderr : target }.

(** An item of the work queue. *)
Inductive event :=
| Payload (p : dict)
| ShutdownSentinel.

(** The state of the handler process that the producer code changes. *)
Record proc := {
  streams : stdio;
  (** worker ids on which [p.start()] has been called *)
  started : list nat;
  (** everything [self.queue.put] has been given, oldest first *)
  puts : list event;
  (** how often [time.time()] has been read *)
  ticks : nat;
}.

Definition M (A : Type) : Type := proc → proc * result A.

Definition ret {A} (a : A) : M A := λ σ, (σ, Ok a).
Definition raise {A} (e : exn) : M A := λ σ, (σ, Err e).
Definition bind {A B} (m : M A) (k : A → M B) : M B :=
  λ σ, match m σ with
       | (σ', Ok a) => k a σ'
       | (σ', Err e) => (σ', Err e)
       end.
Definition lift {A} (r : result A) : M A := λ σ, (σ, r).

Notation "'let*' x ':=' m 'in' k" := (bind m (λ x, k))
  (at level 10, x name, m at level 100, k at level 200).
Notation "'do' m 'then' k" := (bind m (λ _, k))
  (at level 10, m at level 100, k at level 200).

(** [for x in xs: body(x)] *)
Fixpoint for_each {A} (xs : list A) (body : A → M unit) : M unit :=
  match xs with
  | [] => ret tt
  | x :: xs' => do body x then for_each xs' body
  end.

Definition queue_put (ev : event) : M unit :=
  λ σ, ({| streams := streams σ; started := started σ;
           puts := puts σ ++ [ev]; ticks := ticks σ |}, Ok tt).

Definition start_worker (worker_id : nat) : M unit :=
  λ σ, ({| streams := streams σ; started := started σ ++ [worker_id];
           puts := puts σ; ticks := ticks σ |}, Ok tt).

Definition redirect_to (t : target) : M unit :=
  λ σ, ({| streams := {| sys_stdout := t; sys_stderr := t |};
           started := started σ; puts := puts σ; ticks := ticks σ |}, Ok tt).

Definition read_clock (E : env) : M value :=
  λ σ, ({| streams := streams σ; started := started σ;
           puts := puts σ; ticks := S (ticks σ) |}, Ok (time_time E (ticks σ))).

Ltac unfold_monad :=
  unfold bind, lift, ret, raise, queue_put, start_worker, redirect_to,
    read_clock in *.

(** The fields of [self]. *)
Record executor := {
  config : value;
  use_threads : bool;
  num_workers : value;
  workers : list nat;
}.

Section Producer.
Context (E : env).

(** [self.config['lithops'].get('workers', CPU_COUNT)] *)
Definition configured_workers (cfg : value) : result value :=
  match getitem_str cfg "lithops" with
  | Err e => Err e
  | Ok (VDict d) => Ok (default (VInt (CPU_COUNT E)) (dict_get "workers" d))
  | Ok _ => Err (AttributeError "get")
  end.

(** [LocalhostExecutor.__init__].  [job] is the module-level name the last
    statement reads: [None] when it is not bound.  Both branches of
    [if self.use_threads] start one worker per id of [range(num_workers)]. *)
Definition __init__ (job : option dict) (cfg : value) : M executor :=
  let* nw := lift (configured_workers cfg) in
  do redirect_to LogFileStream then
  let* ids := lift (range nw) in
  do for_each ids start_worker then
  let* ns := lift (from_option Ok (Err (NameError "job")) job) in
  do lift (getattr ns "executor_id") then
  do lift (getattr ns "job_id") then
  ret {| config := cfg; use_threads := negb (is_unix_system E);
         num_workers := nw; workers := ids |}.

(** [LocalhostExecutor._invoke]: the dict display is evaluated entry by
    entry, then the payload is put on the queue. *)
Definition _invoke (self : executor) (job : dict) (call_id : string) : M unit :=
  let* func_key := lift (getattr job "func_key") in
  let* data_key := lift (getattr job "data_key") in
  let* extra_env := lift (getattr job "extra_env") in
  let* execution_timeout := lift (getattr job "execution_timeout") in
  let* data_ranges := lift (getattr job "data_ranges") in
  let* index := lift (int call_id) in
  let* data_byte_range := lift (getitem_int data_ranges index) in
  let* executor_id := lift (getattr job "executor_id") in
  let* job_id := lift (getattr job "job_id") in
  let* now := read_clock E in
  let* runtime_name := lift (getattr job "runtime_name") in
  let* runtime_memory := lift (getattr job "runtime_memory") in
  queue_put (Payload
    [("config", config self);
     ("log_level", VStr (effective_level E));
     ("func_key", func_key);
     ("data_key", data_key);
     ("extra_env", extra_env);
     ("execution_timeout", execution_timeout);
     ("data_byte_range", data_byte_range);
     ("executor_id", executor_id);
     ("job_id", job_id);
     ("call_id", VStr call_id);
     ("host_submit_tstamp", now);
     ("lithops_version", VStr (__version__ E));
     ("runtime_name", runtime_name);
     ("runtime_memory", runtime_memory)]).

(** [LocalhostExecutor.run] *)
Definition run (self : executor) (job_description : value) : M unit :=
  let* job := lift (namespace job_description) in
  let* total_calls := lift (getattr job "total_calls") in
  let* indices := lift (range total_calls) in
  do for_each indices (λ i, _invoke self job (format_05d i)) then
  for_each (workers self) (λ _, queue_put ShutdownSentinel).

(** The [run] branch of [__main__] up to the call of [wait()], on the value
    [json.load] returned for the job file. *)
Definition main_run (job_file : value) : M executor :=
  let* job := lift (namespace job_file) in
  do lift (getattr job "executor_id") then
  do lift (getattr job "job_id") then
  let* cfg := lift (getattr job "config") in
  let* localhost_execuor := __init__ (Some job) cfg in
  let* job_description := lift (getattr job "job_description") in
  do run localhost_execuor job_description then
  ret localhost_execuor.

(** [str.replace('/', '-')] needs a [str]. *)
Definition replace_slashes (v : value) : result string :=
  match v with
  | VStr s => Ok (replace_char_all "/" "-" s)
  | _ => Err (AttributeError "replace")
  end.

(** The path of the completion marker, ['{}/{}_{}.done'.format(...)]. *)
Definition sentinel_path (job : dict) : result string :=
  match getattr job "executor_id" with
  | Err e => Err e
  | Ok executor_id =>
      match replace_slashes executor_id with
      | Err e => Err e
      | Ok eid =>
          match getattr job "job_id" with
          | Err e => Err e
          | Ok job_id =>
              Ok (JOBS_DONE_DIR E +:+ "/" +:+ eid +:+ "_"
                    +:+ py_str E job_id +:+ ".done")
          end
      end
  end.

End Producer.

(** The handler process as [__main__] finds it. *)
Definition fresh_proc : proc :=
  {| streams := {| sys_stdout := Console; sys_stderr := Console |};
     started := []; puts := []; ticks := 0 |}.

(** ** Capability discovery: [extract_runtime_meta] *)

(** An item of [pkgutil.iter_modules()]. *)
Record module_info := {
  module_finder : string;
  name : string;
  ispkg : bool;
}.

(** How [sorted] orders two lists [[mod, is_pkg]]: by name, and for one
    name [False] before [True]. *)
Definition entry_leb (a b : string * bool) : bool :=
  match String.compare a.1 b.1 with
  | Lt => true
  | Eq => implb a.2 b.2
  | Gt => false
  end.

Definition entry_le (a b : string * bool) : Prop := Is_true (entry_leb a b).

#[global] Instance entry_le_dec : RelDecision entry_le.
Proof. intros a b. unfold entry_le. apply _. Defined.

(** [[entry for entry in sorted([[mod, is_pkg] for _, mod, is_pkg in mods])]] *)
Definition sorted_entries (mods : list module_info) : list (string * bool) :=
  merge_sort entry_le ((λ m, (name m, ispkg m)) <$> mods).

Definition entry_value (e : string * bool) : value :=
  VList [VStr e.1; VBool e.2].

(** The dict [extract_runtime_meta] fills in. *)
Definition runtime_meta (E : env) (mods : list module_info) : dict :=
  dict_set "python_ver" (VStr (python_version E))
    (dict_set "preinstalls" (VList (entry_value <$> sorted_entries mods)) []).

(** [extract_runtime_meta]: what [print] adds to the standard output. *)
Definition extract_runtime_meta (E : env) (mods : list module_info) : list string :=
  [json_dumps E (VDict (runtime_meta E mods))].

(** ** The worker loop: [LocalhostExecutor._process_runner] *)

(** What the two [redirect_*] context managers remember on entry. *)
Record saved := { old_stdout : target; old_stderr : target }.

(** Entering [with io.StringIO() as buf, redirect_stdout(buf),
    redirect_stderr(buf)]: each manager keeps the current target of its
    stream and installs [buf]. *)
Definition enter_capture (buf : target) (io : stdio) : saved * stdio :=
  let old_out := sys_stdout io in
  let io1 := {| sys_stdout := buf; sys_stderr := sys_stderr io |} in
  let old_err := sys_stderr io1 in
  ({| old_stdout := old_out; old_stderr := old_err |},
   {| sys_stdout := sys_stdout io1; sys_stderr := buf |}).

(** Leaving the [with], on any path: the managers put back what they kept,
    last entered first. *)
Definition exit_capture (sv : saved) (io : stdio) : stdio :=
  let io1 := {| sys_stdout := sys_stdout io; sys_stderr := old_stderr sv |} in
  {| sys_stdout := old_stdout sv; sys_stderr := sys_stderr io1 |}.

(** How one turn of [while True] ends. *)
Inductive flow :=
| Continue (block : string)
| Break
| Propagate (e : exn).

Definition newline : string := String "010" EmptyString.

Section Worker.
Context (E : env).

(** The statements of the [try] after a payload has been dequeued, up to
    and including [function_handler(event)]: the event as the statements
    leave it and the text caught in [buf].  [default_logging_config] and
    [logger.info] only write. *)
Definition guarded (p : dict) : result (dict * string) :=
  match getitem_str (VDict p) "log_level" with
  | Err e => Err e
  | Ok _ =>
      match getitem_str (VDict p) "extra_env" with
      | Err e => Err e
      | Ok extra_env =>
          match setitem_str extra_env "__LITHOPS_LOCAL_EXECUTION" (VStr "True") with
          | Err e => Err e
          | Ok extra_env' =>
              let event := dict_set "extra_env" extra_env' p in
              match function_handler E event with
              | (captured, None) => Ok (event, captured)
              | (_, Some e) => Err e
              end
          end
      end
  end.

(** [header+'    '+output+tail] *)
Definition activation_block (runtime_name act_id captured : string) : string :=
  let header :=
    "Activation: '" +:+ runtime_name +:+ "' (" +:+ act_id +:+ ")"
      +:+ newline +:+ "[" +:+ newline in
  let tail := "]" +:+ newline +:+ newline in
  let output :=
    replace_char "010" (newline +:+ "    ")
      (Z.of_nat (count_char "010" captured) - 1) captured in
  header +:+ "    " +:+ output +:+ tail.

(** One turn of the loop on the dequeued item [ev], with activation id
    [act_id]: [Continue block] when the turn reaches [lf.write], [Break]
    when it leaves the loop, [Propagate e] when [e] leaves
    [_process_runner]. *)
Definition iteration (act_id : string) (ev : event) : flow :=
  match ev with
  | ShutdownSentinel => Break
  | Payload p =>
      match guarded p with
      | Err KeyboardInterrupt => Break
      | Err e => Propagate e
      | Ok (event, captured) =>
          match getitem_str (VDict event) "runtime_name" with
          | Err e => Propagate e
          | Ok runtime_name =>
              Continue (activation_block (py_str E runtime_name) act_id captured)
          end
      end
  end.

(** One turn of the loop of a worker that has [io] to itself: the streams
    after the [with] has been left, and how the turn ended. *)
Definition scoped_iteration (buf : target) (act_id : string) (ev : event)
    (io : stdio) : stdio * flow :=
  let '(sv, io_in) := enter_capture buf io in
  (exit_capture sv io_in, iteration act_id ev).

End Worker.

(** ** The pool: producer and workers interleaved

    The handler process and its workers take steps in any order.  The
    work queue ([queue.Queue] or [mp.Queue], fed by the one producer) is a
    list: [put] appends, [get] takes the head and blocks on an empty queue.
    A worker's turn is two steps: entering the capture scope, where it then
    waits in [self.queue.get], and everything from the dequeue to
    [lf.write].  All that [function_handler] does is what [env] says of it:
    the text it leaves in the buffer and the exception it raises. *)

(** Where a worker is in [_process_runner]. *)
Inductive wstate :=
| AtLoop (turn : nat)
| InScope (turn : nat) (sv : saved)
| Returned
| Crashed (e : exn).

Definition terminated (w : wstate) : bool :=
  match w with
  | Returned | Crashed _ => true
  | AtLoop _ | InScope _ _ => false
  end.

(** Where the handler process is after [LocalhostExecutor(...)]. *)
Inductive mstate :=
| Dispatching (done : nat)
| Joining (joined : nat)
| Touching
| Finished
| MarkerFailed (e : exn)
| Failed (e : exn).


(** [Path(sentinel).touch()]: an existing file keeps its content. *)
Definition touch (path : string) (fs : gmap string string) : gmap string string :=
  match fs !! path with
  | Some _ => fs
  | None => <[path := ""]> fs
  end.

Record sys := {
  s_main : mstate;
  (** the work queue, next item to be dequeued first *)
  s_queue : list event;
  s_workers : list wstate;
  (** [sys.stdout] and [sys.stderr] of each process: the handler process
      first, then the process of each worker when workers are processes *)
  s_stdio : list stdio;
  (** which worker dequeued what, oldest first *)
  s_delivered : list (nat * event);
  (** the blocks appended to [FN_LOG_FILE] *)
  s_fn_log : list string;
  s_fs : gmap string string;
  (** the paths [touch] has been called on *)
  s_touched : list string;
}.

Definition with_main (m : mstate) (s : sys) : sys :=
  {| s_main := m; s_queue := s_queue s; s_workers := s_workers s;
     s_stdio := s_stdio s; s_delivered := s_delivered s;
     s_fn_log := s_fn_log s; s_fs := s_fs s; s_touched := s_touched s |}.

Definition with_queue (q : list event) (s : sys) : sys :=
  {| s_main := s_main s; s_queue := q; s_workers := s_workers s;
     s_stdio := s_stdio s; s_delivered := s_delivered s;
     s_fn_log := s_fn_log s; s_fs := s_fs s; s_touched := s_touched s |}.

Definition with_worker (w : nat) (ws : wstate) (pid : nat) (io : stdio) (s : sys)
  : sys :=
  {| s_main := s_main s; s_queue := s_queue s;
     s_workers := <[w := ws]> (s_workers s);
     s_stdio := <[pid := io]> (s_stdio s); s_delivered := s_delivered s;
     s_fn_log := s_fn_log s; s_fs := s_fs s; s_touched := s_touched s |}.

Definition with_delivery (w : nat) (ev : event) (s : sys) : sys :=
  {| s_main := s_main s; s_queue := s_queue s; s_workers := s_workers s;
     s_stdio := s_stdio s; s_delivered := s_delivered s ++ [(w, ev)];
     s_fn_log := s_fn_log s; s_fs := s_fs s; s_touched := s_touched s |}.

Definition with_block (block : string) (s : sys) : sys :=
  {| s_main := s_main s; s_queue := s_queue s; s_workers := s_workers s;
     s_stdio := s_stdio s; s_delivered := s_delivered s;
     s_fn_log := s_fn_log s ++ [block]; s_fs := s_fs s;
     s_touched := s_touched s |}.

Definition with_touch (path : string) (s : sys) : sys :=
  {| s_main := s_main s; s_queue := s_queue s; s_workers := s_workers s;
     s_stdio := s_stdio s; s_delivered := s_delivered s;
     s_fn_log := s_fn_log s; s_fs := touch path (s_fs s);
     s_touched := s_touched s ++ [path] |}.

(** The worker's state and the log after a turn that ended with [f]. *)
Definition after_turn (turn : nat) (f : flow) : wstate :=
  match f with
  | Continue _ => AtLoop (S turn)
  | Break => Returned
  | Propagate e => Crashed e
  end.

Definition log_turn (f : flow) (s : sys) : sys :=
  match f with
  | Continue block => with_block block s
  | Break | Propagate _ => s
  end.

Section Pool.
Context (E : env).
(** what [json.load(jf)] returned, and the files present at start *)
Context (job_file : value) (fs0 : gmap string string).

(** The handler process when [wait()] is called, or when an exception
    stopped it before. *)
Definition producer : proc * result executor := main_run E job_file fresh_proc.

(** A thread shares the streams of the handler process (process 0); a
    worker process has a copy of them, made when it was started. *)
Definition pid_of (w : nat) : nat :=
  if is_unix_system E then S w else 0.

Definition initial : sys :=
  let W := length (started producer.1) in
  {| s_main := Dispatching 0; s_queue := [];
     s_workers := replicate W (AtLoop 0);
     s_stdio := replicate (S W) (streams producer.1);
     s_delivered := []; s_fn_log := []; s_fs := fs0; s_touched := [] |}.

(** The marker path the [run] branch computes after [wait()]. *)
Definition marker : result string :=
  match namespace job_file with
  | Ok job => sentinel_path E job
  | Err e => Err e
  end.

Inductive step : sys → sys → Prop :=
(** the producer's next [self.queue.put] *)
| step_put s k ev :
    s_main s = Dispatching k →
    puts producer.1 !! k = Some ev →
    step s (with_main (Dispatching (S k)) (with_queue (s_queue s ++ [ev]) s))
(** [run] has returned: the producer calls [wait()] *)
| step_dispatched s self :
    s_main s = Dispatching (length (puts producer.1)) →
    producer.2 = Ok self →
    step s (with_main (Joining 0) s)
(** an exception left the producer *)
| step_dispatch_failed s e :
    s_main s = Dispatching (length (puts producer.1)) →
    producer.2 = Err e →
    step s (with_main (Failed e) s)
(** [worker.join()] returns once that worker is over *)
| step_join s j ws :
    s_main s = Joining j →
    s_workers s !! j = Some ws →
    terminated ws = true →
    step s (with_main (Joining (S j)) s)
| step_wait_returns s :
    s_main s = Joining (length (s_workers s)) →
    step s (with_main Touching s)
| step_touch s path :
    s_main s = Touching →
    marker = Ok path →
    step s (with_main Finished (with_touch path s))
| step_touch_failed s e :
    s_main s = Touching →
    marker = Err e →
    step s (with_main (MarkerFailed e) s)
(** a worker enters the capture scope and blocks in [self.queue.get] *)
| step_enter s w turn io :
    s_workers s !! w = Some (AtLoop turn) →
    s_stdio s !! pid_of w = Some io →
    step s (with_worker w (InScope turn (enter_capture (Buffer w turn) io).1)
              (pid_of w) (enter_capture (Buffer w turn) io).2 s)
(** a worker dequeues the head of the queue and finishes the turn *)
| step_get s w turn sv io ev rest act_id :
    s_workers s !! w = Some (InScope turn sv) →
    s_stdio s !! pid_of w = Some io →
    s_queue s = ev :: rest →
    step s (log_turn (iteration E act_id ev)
              (with_worker w (after_turn turn (iteration E act_id ev))
                 (pid_of w) (exit_capture sv io)
                 (with_delivery w ev (with_queue rest s))))
(** [KeyboardInterrupt] reaches a worker blocked in [self.queue.get] *)
| step_interrupt s w turn sv io :
    s_workers s !! w = Some (InScope turn sv) →
    s_stdio s !! pid_of w = Some io →
    step s (with_worker w Returned (pid_of w) (exit_capture sv io) s).

Definition reachable (s : sys) : Prop := rtc step initial s.

End Pool.

(** ** Running the pool under a schedule *)

(** The choices a scheduler has: let the handler process take its next
    step, or let a worker enter the capture scope, finish its turn with the
    head of the queue (under a given activation id), or be interrupted. *)
Inductive action :=
| Main
| Enter (w : nat)
| Get (w : nat) (act_id : string)
| Interrupt (w : nat).

Section Schedule.
Context (E : env) (job_file : value).

Definition exec_main (s : sys) : option sys :=
  match s_main s with
  | Dispatching k =>
      match puts (producer E job_file).1 !! k with
      | Some ev =>
          Some (with_main (Dispatching (S k)) (with_queue (s_queue s ++ [ev]) s))
      | None =>
          if decide (k = length (puts (producer E job_file).1)) then
            match (producer E job_file).2 with
            | Ok _ => Some (with_main (Joining 0) s)
            | Err e => Some (with_main (Failed e) s)
            end
          else None
      end
  | Joining j =>
      match s_workers s !! j with
      | Some ws =>
          if terminated ws then Some (with_main (Joining (S j)) s) else None
      | None =>
          if decide (j = length (s_workers s)) then Some (with_main Touching s)
          else None
      end
  | Touching =>
      match marker E job_file with
      | Ok path => Some (with_main Finished (with_touch path s))
      | Err e => Some (with_main (MarkerFailed e) s)
      end
  | Finished | MarkerFailed _ | Failed _ => None
  end.

Definition exec (a : action) (s : sys) : option sys :=
  match a with
  | Main => exec_main s
  | Enter w =>
      match s_workers s !! w, s_stdio s !! pid_of E w with
      | Some (AtLoop turn), Some io =>
          Some (with_worker w
                  (InScope turn (enter_capture (Buffer w turn) io).1)
                  (pid_of E w) (enter_capture (Buffer w turn) io).2 s)
      | _, _ => None
      end
  | Get w act_id =>
      match s_workers s !! w, s_stdio s !! pid_of E w, s_queue s with
      | Some (InScope turn sv), Some io, ev :: rest =>
          Some (log_turn (iteration E act_id ev)
                  (with_worker w (after_turn turn (iteration E act_id ev))
                     (pid_of E w) (exit_capture sv io)
                     (with_delivery w ev (with_queue rest s))))
      | _, _, _ => None
      end
  | Interrupt w =>
      match s_workers s !! w, s_stdio s !! pid_of E w with
      | Some (InScope turn sv), Some io =>
          Some (with_worker w Returned (pid_of E w) (exit_capture sv io) s)
      | _, _ => None
      end
  end.

Fixpoint execs (schedule : list action) (s : sys) : option sys :=
  match schedule with
  | [] => Some s
  | a :: schedule' =>
      match exec a s with
      | Some s' => execs schedule' s'
      | None => None
      end
  end.

End Schedule.

(** The event as the worker hands it to [function_handler]. *)
Definition local_event (extra_env p : dict) : dict :=
  dict_set "extra_env"
    (VDict (dict_set "__LITHOPS_LOCAL_EXECUTION" (VStr "True") extra_env)) p.

(** ** What the statements below are about *)

Definition is_Ok {A} (r : result A) : Prop := ∃ a, r = Ok a.

(** The state after [evs] have been put and the clock read [n] times. *)
Definition advance (evs : list event) (n : nat) (σ : proc) : proc :=
  {| streams := streams σ; started := started σ;
     puts := puts σ ++ evs; ticks := ticks σ + n |}.

(** The state after [evs] have been put. *)
Definition advance' (evs : list event) (σ : proc) : proc :=
  {| streams := streams σ; started := started σ;
     puts := puts σ ++ evs; ticks := ticks σ |}.

(** The attributes [_invoke] reads from the job. *)
Definition job_fields : list string :=
  ["func_key"; "data_key"; "extra_env"; "execution_timeout"; "data_ranges";
   "executor_id"; "job_id"; "runtime_name"; "runtime_memory"].

(** The job has every attribute [_invoke] reads. *)
Definition has_fields (job : dict) : Prop :=
  Forall (λ f, is_Some (dict_get f job)) job_fields.

(** The keys of a payload, in the order of the dict display. *)
Definition payload_keys : list string :=
  ["config"; "log_level"; "func_key"; "data_key"; "extra_env";
   "execution_timeout"; "data_byte_range"; "executor_id"; "job_id"; "call_id";
   "host_submit_tstamp"; "lithops_version"; "runtime_name"; "runtime_memory"].

(** The attributes of the job a payload carries under their own name. *)
Definition copied_fields : list string :=
  ["func_key"; "data_key"; "extra_env"; "execution_timeout"; "executor_id";
   "job_id"; "runtime_name"; "runtime_memory"].

(** [p] is the payload of call [i], built at clock reading [t], with byte
    range [r]. *)
Record call_payload (E : env) (self : executor) (job : dict) (i t : nat)
    (r : value) (p : dict) : Prop := {
  cp_keys : keys p = payload_keys;
  cp_call_id : dict_get "call_id" p = Some (VStr (format_05d i));
  cp_range : dict_get "data_byte_range" p = Some r;
  cp_config : dict_get "config" p = Some (config self);
  cp_level : dict_get "log_level" p = Some (VStr (effective_level E));
  cp_version : dict_get "lithops_version" p = Some (VStr (__version__ E));
  cp_tstamp : dict_get "host_submit_tstamp" p = Some (time_time E t);
  cp_copied : Forall (λ f, dict_get f p = dict_get f job) copied_fields;
}.

(** The handler process once the constructor has started its workers. *)
Definition with_workers (ids : list nat) (σ : proc) : proc :=
  {| streams := {| sys_stdout := LogFileStream; sys_stderr := LogFileStream |};
     started := started σ ++ ids; puts := puts σ; ticks := ticks σ |}.

Section Statements.
Context (E : env).

(** The first loop of [run]. *)
Definition dispatch (self : executor) (job : dict) (indices : list nat) : M unit :=
  for_each indices (λ i, _invoke E self job (format_05d i)).

(** [ps] are the payloads of the calls [a], [a + 1], ... of a job with byte
    ranges [l], the first one built at clock reading [t]. *)
Definition payloads_from (self : executor) (job : dict) (l : list value) (a t : nat)
    (ps : list dict) : Prop :=
  ∀ j p, ps !! j = Some p →
    ∃ r, l !! (a + j) = Some r ∧ call_payload E self job (a + j) (t + j) r p.

(** The ids of the workers the constructor starts for a config, or the
    exception that stops it before it starts any. *)
Definition worker_ids (cfg : value) : result (list nat) :=
  match configured_workers E cfg with
  | Ok nw => range nw
  | Err e => Err e
  end.

(** What the [run] branch needs before it can start a worker: the job
    file as a namespace, its config and the worker ids read from it. *)
Definition load_job_file (job_file : value) : result (dict * value * list nat) :=
  match namespace job_file with
  | Err e => Err e
  | Ok job =>
      match getattr job "executor_id" with
      | Err e => Err e
      | Ok _ =>
          match getattr job "job_id" with
          | Err e => Err e
          | Ok _ =>
              match getattr job "config" with
              | Err e => Err e
              | Ok cfg =>
                  match worker_ids cfg with
                  | Err e => Err e
                  | Ok ids => Ok (job, cfg, ids)
                  end
              end
          end
      end
  end.

Context (job_file : value).

(** How many of the producer's puts have been made. *)
Definition dispatched (m : mstate) : nat :=
  match m with
  | Dispatching k => k
  | _ => length (puts (producer E job_file).1)
  end.

(** How many workers [wait()] has joined. *)
Definition joined (m : mstate) : nat :=
  match m with
  | Joining j => j
  | Touching | Finished | MarkerFailed _ =>
      length (started (producer E job_file).1)
  | Dispatching _ | Failed _ => 0
  end.

(** The queue is first in, first out: what has been dequeued, followed by
    what is on the queue, is what the producer has put so far. *)
Definition fifo (s : sys) : Prop :=
  (s_delivered s).*2 ++ s_queue s
    = take (dispatched (s_main s)) (puts (producer E job_file).1)
  ∧ dispatched (s_main s) ≤ length (puts (producer E job_file).1).


(** The streams a worker finds when it is started. *)
Definition inherited : stdio := streams (producer E job_file).1.

(** With one process per worker, a worker's streams are the inherited ones
    whenever it is outside the capture scope, and its own buffer inside. *)
Definition scoped_streams (s : sys) : Prop :=
  ∀ w ws, s_workers s !! w = Some ws →
    match ws with
    | InScope turn sv =>
        s_stdio s !! S w
          = Some {| sys_stdout := Buffer w turn; sys_stderr := Buffer w turn |}
        ∧ sv = {| old_stdout := sys_stdout inherited;
                  old_stderr := sys_stderr inherited |}
    | _ => s_stdio s !! S w = Some inherited
    end.

Context (fs0 : gmap string string).

(** The marker is touched on the way to [Finished] and nowhere else. *)
Definition marker_state (s : sys) : Prop :=
  match s_main s with
  | Finished =>
      ∃ path, marker E job_file = Ok path ∧ s_touched s = [path]
              ∧ s_fs s = touch path fs0
  | _ => s_touched s = [] ∧ s_fs s = fs0
  end.

End Statements.

(** ** A job used in the examples *)

Module Sample.

Definition to_text (v : value) : string :=
  match v with
  | VStr s => s
  | VNone => "None"
  | VBool true => "True"
  | VBool false => "False"
  | _ => "..."
  end.

(** A handler under which the call ["00001"] raises and the others print a
    line. *)
Definition handler (event : dict) : string * option exn :=
  match dict_get "call_id" event with
  | Some (VStr "00001") => ("", Some (Raised "ZeroDivisionError"))
  | _ => ("done" +:+ newline, None)
  end.

Definition unix : env :=
  {| CPU_COUNT := 4; is_unix_system := true; effective_level := "INFO";
     __version__ := "2.2.0"; JOBS_DONE_DIR := "/tmp/lithops/jobs";
     python_version := "3.8";
     time_time := λ n, VInt (1600000000 + Z.of_nat n);
     py_str := to_text; json_dumps := λ _, "{}"; function_handler := handler |}.

(** The same host without process workers: the pool uses threads. *)
Definition threads : env :=
  {| CPU_COUNT := 4; is_unix_system := false; effective_level := "INFO";
     __version__ := "2.2.0"; JOBS_DONE_DIR := "/tmp/lithops/jobs";
     python_version := "3.8";
     time_time := λ n, VInt (1600000000 + Z.of_nat n);
     py_str := to_text; json_dumps := λ _, "{}"; function_handler := handler |}.

Definition cfg : value := VDict [("lithops", VDict [("workers", VInt 2)])].

Definition description (total_calls : Z) (ranges : list value) : dict :=
  [("executor_id", VStr "a1/0"); ("job_id", VStr "A000");
   ("total_calls", VInt total_calls); ("data_ranges", VList ranges);
   ("func_key", VStr "f.pickle"); ("data_key", VStr "d.pickle");
   ("extra_env", VDict []); ("execution_timeout", VInt 600);
   ("runtime_name", VStr "python3"); ("runtime_memory", VNone)].

Definition byte_range (a b : Z) : value := VList [VInt a; VInt b].

Definition file (job_description : value) : value :=
  VDict [("executor_id", VStr "a1/0"); ("job_id", VStr "A000");
         ("config", cfg); ("job_description", job_description)].

(** Three calls with a byte range each. *)
Definition three_calls : dict :=
  description 3 [byte_range 0 9; byte_range 10 19; byte_range 20 29].

(** Three calls announced, two byte ranges given. *)
Definition short_ranges : dict :=
  description 3 [byte_range 0 9; byte_range 10 19].

(** No call at all. *)
Definition no_call : dict := description 0 [].

Definition self : executor :=
  {| config := cfg; use_threads := false; num_workers := VInt 2;
     workers := [0; 1] |}.

End Sample.

Module Scenario.

(** Two process workers, three calls, the second of which raises: worker 0
    runs the calls ["00000"] and ["00002"], worker 1 the call ["00001"]. *)
Definition job_file : value := Sample.file (VDict Sample.three_calls).

Definition dispatch_all : list action :=
  [Enter 0; Enter 1; Main; Get 0 "5f0c2a9d41b7"; Main; Main;
   Get 1 "0e93b1c4d2a8"; Enter 0; Get 0 "a7d01f36c95e"; Main; Main; Main].

Definition drain : list action :=
  [Enter 0; Get 0 "c41e8b07f2d3"; Main; Main; Main; Main].

(** The pool once both sentinels are on the queue. *)
Definition dispatched_state : sys :=
  default (initial Sample.unix job_file ∅)
    (execs Sample.unix job_file dispatch_all (initial Sample.unix job_file ∅)).

(** The pool at the end of the run. *)
Definition final_state : sys :=
  default (initial Sample.unix job_file ∅)
    (execs Sample.unix job_file (dispatch_all ++ drain)
       (initial Sample.unix job_file ∅)).

(** Two thread workers and a job without calls: both workers are inside
    their capture scope, blocked on the queue, when the sentinels arrive. *)
Definition idle_job_file : value := Sample.file (VDict Sample.no_call).

Definition idle_threads : list action :=
  [Enter 0; Enter 1; Main; Main; Main; Get 0 "5f0c2a9d41b7";
   Get 1 "0e93b1c4d2a8"; Main; Main; Main; Main].

Definition idle_final_state : sys :=
  default (initial Sample.threads idle_job_file ∅)
    (execs Sample.threads idle_job_file idle_threads
       (initial Sample.threads idle_job_file ∅)).

End Scenario.

(** ** More to state *)

(** The payloads among what the workers have dequeued. *)
Definition calls_taken (ds : list (nat * event)) : list dict :=
  omap (λ d, match d.2 with Payload p => Some p | ShutdownSentinel => None end)
    ds.

(** No two workers of the pool share their streams: they are processes, or
    there is at most one of them. *)
Definition alone_in_scope (E : env) (job_file : value) : Prop :=
  is_unix_system E = true ∨ length (started (producer E job_file).1) ≤ 1.

(** What the streams of a worker's process are, given where the worker is. *)
Definition streams_of_worker (E : env) (job_file : value) (w : nat)
    (ws : wstate) : stdio :=
  match ws with
  | InScope turn _ =>
      {| sys_stdout := Buffer w turn; sys_stderr := Buffer w turn |}
  | _ => inherited E job_file
  end.

(** Each worker's process has the streams that go with where the worker
    is, and a worker inside the scope has kept the streams it was started
    with. *)
Definition exact_scopes (E : env) (job_file : value) (s : sys) : Prop :=
  ∀ w ws, s_workers s !! w = Some ws →
    s_stdio s !! pid_of E w = Some (streams_of_worker E job_file w ws)
    ∧ ∀ turn sv, ws = InScope turn sv →
        sv = {| old_stdout := sys_stdout (inherited E job_file);
                old_stderr := sys_stderr (inherited E job_file) |}.

(** A worker that has dequeued a sentinel has returned, and it has dequeued
    nothing after the sentinel. *)
Definition sentinel_is_last (s : sys) : Prop :=
  ∀ i w, s_delivered s !! i = Some (w, ShutdownSentinel) →
    s_workers s !! w = Some Returned
    ∧ ∀ j ev, i < j → s_delivered s !! j ≠ Some (w, ev).

(** The handler process is in [wait()] or past it only if [run] returned,
    and it has failed before [wait()] only with the producer's exception. *)
Definition dispatch_outcome (E : env) (job_file : value) (s : sys) : Prop :=
  match s_main s with
  | Dispatching _ => True
  | Failed e => (producer E job_file).2 = Err e
  | Joining _ | Touching | Finished | MarkerFailed _ =>
      is_Ok (producer E job_file).2
  end.

(** The function log has no more blocks than calls were dequeued. *)
Definition log_bounded (s : sys) : Prop :=
  length (s_fn_log s) ≤ length (calls_taken (s_delivered s)).


Module Edge.



(** A job description whose [extra_env] is JSON's [null]. *)
Definition null_env : dict :=
  [("executor_id", VStr "a1/0"); ("job_id", VStr "A000");
   ("total_calls", VInt 1); ("data_ranges", VList [Sample.byte_range 0 9]);
   ("func_key", VStr "f.pickle"); ("data_key", VStr "d.pickle");
   ("extra_env", VNone); ("execution_timeout", VInt 600);
   ("runtime_name", VStr "python3"); ("runtime_memory", VNone)].

(** A job file whose [executor_id] is a number. *)
Definition numbered_file : value :=
  VDict [("executor_id", VInt 7); ("job_id", VStr "A000");
         ("config", Sample.cfg);
         ("job_description", VDict Sample.no_call)].

End Edge.

(** * Proofs *)

(** ** Facts about the builtins *)

Module PyFacts.

Lemma dict_get_set_eq k v d : dict_get k (dict_set k v d) = Some v.
Proof.
  induction d as [|[k' v'] d IH]; simpl.
  - by rewrite String.eqb_refl.
  - destruct (String.eqb k k') eqn:Hk; simpl; rewrite ?String.eqb_refl, ?Hk; done.
Qed.

Lemma dict_get_set_ne k k' v d :
  k ≠ k' → dict_get k' (dict_set k v d) = dict_get k' d.
Proof.
  intros Hne. induction d as [|[k0 v0] d IH]; simpl.
  - destruct (String.eqb k' k) eqn:Hk; [|done].
    apply String.eqb_eq in Hk. congruence.
  - destruct (String.eqb k k0) eqn:Hk; simpl.
    + apply String.eqb_eq in Hk as <-.
      destruct (String.eqb k' k) eqn:Hk'; [|done].
      apply String.eqb_eq in Hk'. congruence.
    + by rewrite IH.
Qed.

Lemma getattr_Some ns name v : dict_get name ns = Some v → getattr ns name = Ok v.
Proof. unfold getattr. by intros ->. Qed.

Lemma getattr_None ns name :
  dict_get name ns = None → getattr ns name = Err (AttributeError name).
Proof. unfold getattr. by intros ->. Qed.

Lemma length_string_of_uint d :
  String.length (NilEmpty.string_of_uint d) = Unsigned.usize d.
Proof. induction d; simpl; congruence. Qed.

Lemma length_app (s t : string) :
  String.length (s +:+ t) = String.length s + String.length t.
Proof. induction s as [|a s IH]; simpl; [done|]. by rewrite IH. Qed.

Lemma length_zeros n : String.length (zeros n) = n.
Proof. induction n; simpl; congruence. Qed.

(** The width of a call id: five, or the number of digits when that is more. *)
Lemma length_format_05d i :
  String.length (format_05d i) = 5 `max` String.length (str_of_nat i).
Proof.
  unfold format_05d, zero_pad. rewrite length_app, length_zeros. lia.
Qed.

Lemma to_uint_normal n : Decimal.unorm (Nat.to_uint n) = Nat.to_uint n.
Proof. by rewrite <- Unsigned.to_of, Unsigned.of_to. Qed.

Lemma to_uint_not_Nil n : Nat.to_uint n ≠ Decimal.Nil.
Proof. rewrite <- to_uint_normal. apply unorm_nonnil. Qed.

(** A numeral without leading zero is at least the power of ten of its
    length. *)
Lemma of_uint_lower d :
  Decimal.nzhead d = d → d ≠ Decimal.Nil →
  10 ^ (Unsigned.usize d - 1) ≤ Nat.of_uint d.
Proof.
  intros Hnz Hnil. destruct d as [|d|d|d|d|d|d|d|d|d|d]; try done;
    try (by destruct (nzhead_nonzero (Decimal.D0 d) d));
    unfold Nat.of_uint; simpl Nat.of_uint_acc;
    rewrite Unsigned.of_uint_acc_spec; simpl Unsigned.usize;
    replace (S (Unsigned.usize d) - 1) with (Unsigned.usize d) by lia;
    generalize (10 ^ Unsigned.usize d); intros; lia.
Qed.

Lemma usize_to_uint_small n k :
  n < 10 ^ k → 0 < k → Unsigned.usize (Nat.to_uint n) ≤ k.
Proof.
  intros Hn Hk.
  destruct (Decimal.uint_eq_dec (Decimal.nzhead (Nat.to_uint n)) Decimal.Nil)
    as [Hz|Hz].
  - apply unorm_0 in Hz. rewrite to_uint_normal in Hz. rewrite Hz. simpl. lia.
  - pose proof (unorm_nzhead _ Hz) as Hu. rewrite to_uint_normal in Hu.
    pose proof (of_uint_lower (Nat.to_uint n)) as Hlow.
    rewrite Unsigned.of_to in Hlow.
    specialize (Hlow (eq_sym Hu) (to_uint_not_Nil n)).
    destruct (decide (Unsigned.usize (Nat.to_uint n) ≤ k)) as [|Hgt]; [done|].
    assert (10 ^ k ≤ 10 ^ (Unsigned.usize (Nat.to_uint n) - 1))
      by (apply Nat.pow_le_mono_r; lia).
    lia.
Qed.

(** Below [10 ^ 5] a call id has exactly five characters. *)
Lemma length_format_05d_small i :
  i < 10 ^ 5 → String.length (format_05d i) = 5.
Proof.
  intros Hi. rewrite length_format_05d.
  unfold str_of_nat. rewrite length_string_of_uint.
  pose proof (usize_to_uint_small i 5 Hi). lia.
Qed.

Lemma uint_of_string_zeros k s d :
  NilEmpty.uint_of_string s = Some d →
  NilEmpty.uint_of_string (zeros k +:+ s) = Some (Nat.iter k Decimal.D0 d).
Proof.
  intros Hs. induction k as [|k IH]; simpl; [done|]. by rewrite IH.
Qed.

Lemma of_uint_iter_D0 k d :
  Nat.of_uint (Nat.iter k Decimal.D0 d) = Nat.of_uint d.
Proof.
  rewrite <- Unsigned.of_uint_norm, unorm_iter_D0. apply Unsigned.of_uint_norm.
Qed.

(** [int] reads back the index a call id was made from. *)
Lemma int_format_05d i : int (format_05d i) = Ok i.
Proof.
  unfold int, format_05d, zero_pad, str_of_nat.
  rewrite (uint_of_string_zeros _ _ (Nat.to_uint i)); [|apply NilEmpty.usu].
  assert (Nat.iter (5 - String.length (NilEmpty.string_of_uint (Nat.to_uint i)))
            Decimal.D0 (Nat.to_uint i) ≠ Decimal.Nil) as Hnil.
  { destruct (5 - _) as [|k]; simpl; [apply to_uint_not_Nil|done]. }
  destruct (Nat.iter _ _ _) eqn:Hd; try done;
    rewrite <- Hd, of_uint_iter_D0, Unsigned.of_to; done.
Qed.

Lemma format_05d_inj i j : format_05d i = format_05d j → i = j.
Proof.
  intros H. apply (f_equal int) in H. rewrite !int_format_05d in H. congruence.
Qed.

End PyFacts.
(** ** The producer's effect on the queue *)

Lemma advance_0 σ : advance [] 0 σ = σ.
Proof. destruct σ. unfold advance. simpl. by rewrite app_nil_r, Nat.add_0_r. Qed.

Lemma advance_advance evs1 n1 evs2 n2 σ :
  advance evs2 n2 (advance evs1 n1 σ) = advance (evs1 ++ evs2) (n1 + n2) σ.
Proof. unfold advance. simpl. by rewrite app_assoc, Nat.add_assoc. Qed.

Lemma is_Ok_Ok {A} (a : A) : is_Ok (Ok a).
Proof. by exists a. Qed.

Lemma not_is_Ok_Err {A} (e : exn) : ¬ is_Ok (@Err A e).
Proof. by intros [? ?]. Qed.

#[global] Hint Resolve is_Ok_Ok not_is_Ok_Err : core.

Section ProducerFacts.
Context (E : env) (self : executor).

Lemma for_each_app {A} (xs ys : list A) (body : A → M unit) σ :
  for_each (xs ++ ys) body σ =
  match for_each xs body σ with
  | (σ', Ok _) => for_each ys body σ'
  | (σ', Err e) => (σ', Err e)
  end.
Proof.
  revert σ. induction xs as [|x xs IH]; intros σ; simpl; [done|].
  unfold bind. destruct (body x σ) as [σ1 [[]|e]]; [apply IH|done].
Qed.

Lemma invoke_in_range job l i r σ :
  has_fields job → dict_get "data_ranges" job = Some (VList l) →
  l !! i = Some r →
  ∃ p, _invoke E self job (format_05d i) σ = (advance [Payload p] 1 σ, Ok tt)
       ∧ call_payload E self job i (ticks σ) r p.
Proof.
  intros Hf Hl Hr. unfold has_fields, job_fields in Hf.
  repeat lazymatch type of Hf with
         | Forall _ (_ :: _) => apply Forall_cons in Hf as [[? ?] Hf]
         end.
  eexists. split.
  - unfold _invoke. unfold_monad. unfold getattr.
    repeat match goal with H : dict_get _ job = Some _ |- _ => rewrite H end.
    rewrite PyFacts.int_format_05d. simpl. rewrite Hr.
    unfold advance. rewrite Nat.add_1_r. reflexivity.
  - split; try reflexivity; simpl.
    repeat constructor; simpl; congruence.
Qed.

Lemma invoke_out_of_range job l i σ :
  has_fields job → dict_get "data_ranges" job = Some (VList l) →
  l !! i = None →
  _invoke E self job (format_05d i) σ = (σ, Err IndexError).
Proof.
  intros Hf Hl Hr. unfold has_fields, job_fields in Hf.
  repeat lazymatch type of Hf with
         | Forall _ (_ :: _) => apply Forall_cons in Hf as [[? ?] Hf]
         end.
  unfold _invoke. unfold_monad. unfold getattr.
  repeat match goal with H : dict_get _ job = Some _ |- _ => rewrite H end.
  rewrite PyFacts.int_format_05d. simpl. by rewrite Hr.
Qed.

(** Whatever the job, [_invoke] either puts one payload or raises without
    having put anything. *)
Lemma invoke_shape job call_id σ :
  (∃ p, _invoke E self job call_id σ = (advance [Payload p] 1 σ, Ok tt)) ∨
  (∃ e n, _invoke E self job call_id σ = (advance [] n σ, Err e)).
Proof.
  unfold _invoke. unfold_monad.
  repeat match goal with
         | |- context [match ?r with Ok _ => _ | Err _ => _ end] =>
             destruct r; simpl
         end;
    try (right; eexists _, 0; rewrite advance_0; reflexivity);
    try (right; eexists _, 1; unfold advance; simpl;
         rewrite app_nil_r, Nat.add_1_r; reflexivity).
  left. eexists. unfold advance. rewrite Nat.add_1_r. reflexivity.
Qed.

Lemma dispatch_in_range job l n : ∀ a σ,
  has_fields job → dict_get "data_ranges" job = Some (VList l) →
  a + n ≤ length l →
  ∃ ps, dispatch E self job (seq a n) σ = (advance (Payload <$> ps) n σ, Ok tt)
        ∧ length ps = n ∧ payloads_from E self job l a (ticks σ) ps.
Proof.
  induction n as [|n IH]; intros a σ Hf Hl Hn.
  - exists []. rewrite advance_0. by split; [|split; [|intros ? ? ?]].
  - destruct (lookup_lt_is_Some_2 l a ltac:(lia)) as [r Hr].
    destruct (invoke_in_range job l a r σ Hf Hl Hr) as (p & Hp & Hcp).
    destruct (IH (S a) (advance [Payload p] 1 σ) Hf Hl ltac:(lia))
      as (ps & Hps & Hlen & Hfrom).
    exists (p :: ps). unfold dispatch in *. simpl. unfold bind at 1.
    rewrite Hp, Hps, advance_advance. split; [done|]. split; [simpl; lia|].
    unfold payloads_from in *. intros [|j] q Hq; simpl in Hq.
    + injection Hq as <-. exists r. rewrite !Nat.add_0_r. auto.
    + destruct (Hfrom j q Hq) as (r' & Hr' & Hcp'). exists r'.
      simpl in Hcp'. replace (a + S j) with (S a + j) by lia.
      replace (ticks σ + S j) with (ticks σ + 1 + j) by lia. auto.
Qed.

Lemma dispatch_overflow job l n : ∀ a σ,
  has_fields job → dict_get "data_ranges" job = Some (VList l) →
  a ≤ length l → length l < a + n →
  ∃ ps, dispatch E self job (seq a n) σ
          = (advance (Payload <$> ps) (length l - a) σ, Err IndexError)
        ∧ length ps = length l - a ∧ payloads_from E self job l a (ticks σ) ps.
Proof.
  induction n as [|n IH]; intros a σ Hf Hl Ha Hn; [lia|].
  destruct (decide (a = length l)) as [->|Hne].
  - exists []. unfold dispatch. simpl. unfold bind at 1.
    rewrite (invoke_out_of_range job l (length l) σ Hf Hl
               (lookup_ge_None_2 l _ (Nat.le_refl _))).
    rewrite Nat.sub_diag, advance_0. by split; [|split; [|intros ? ? ?]].
  - destruct (lookup_lt_is_Some_2 l a ltac:(lia)) as [r Hr].
    destruct (invoke_in_range job l a r σ Hf Hl Hr) as (p & Hp & Hcp).
    destruct (IH (S a) (advance [Payload p] 1 σ) Hf Hl ltac:(lia) ltac:(lia))
      as (ps & Hps & Hlen & Hfrom).
    exists (p :: ps). unfold dispatch in *. simpl. unfold bind at 1.
    rewrite Hp, Hps, advance_advance.
    replace (1 + (length l - S a)) with (length l - a) by lia.
    split; [done|]. split; [simpl; lia|].
    unfold payloads_from in *. intros [|j] q Hq; simpl in Hq.
    + injection Hq as <-. exists r. rewrite !Nat.add_0_r. auto.
    + destruct (Hfrom j q Hq) as (r' & Hr' & Hcp'). exists r'.
      simpl in Hcp'. replace (a + S j) with (S a + j) by lia.
      replace (ticks σ + S j) with (ticks σ + 1 + j) by lia. auto.
Qed.

(** Whatever the job, the first loop only ever puts payloads. *)
Lemma dispatch_shape job indices : ∀ σ,
  ∃ ps n r, dispatch E self job indices σ = (advance (Payload <$> ps) n σ, r).
Proof.
  induction indices as [|i indices IH]; intros σ.
  - exists [], 0, (Ok tt). by rewrite advance_0.
  - unfold dispatch in *. simpl. unfold bind at 1.
    destruct (invoke_shape job (format_05d i) σ) as [[p ->]|(e & n & ->)].
    + destruct (IH (advance [Payload p] 1 σ)) as (ps & n & r & ->).
      exists (p :: ps), (1 + n), r. by rewrite advance_advance.
    + by exists [], n, (Err e).
Qed.

(** The second loop of [run]. *)
Lemma shutdown_loop (ws : list nat) : ∀ σ,
  for_each ws (λ _, queue_put ShutdownSentinel) σ
  = (advance (replicate (length ws) ShutdownSentinel) 0 σ, Ok tt).
Proof.
  induction ws as [|w ws IH]; intros σ; simpl.
  - by rewrite advance_0.
  - unfold bind at 1. unfold queue_put at 1.
    change ({| streams := streams σ; started := started σ;
               puts := puts σ ++ [ShutdownSentinel]; ticks := ticks σ |})
      with (advance' [ShutdownSentinel] σ).
    rewrite IH. unfold advance', advance. simpl.
    by rewrite <- app_assoc, !Nat.add_0_r.
Qed.

End ProducerFacts.

Section RunFacts.
Context (E : env).

Lemma run_dispatch self jd job z σ :
  namespace jd = Ok job →
  dict_get "total_calls" job = Some (VInt z) →
  run E self jd σ =
  match dispatch E self job (seq 0 (Z.to_nat z)) σ with
  | (σ', Ok _) =>
      (advance (replicate (length (workers self)) ShutdownSentinel) 0 σ', Ok tt)
  | (σ', Err e) => (σ', Err e)
  end.
Proof.
  intros Hns Htc. unfold run. unfold bind at 1. unfold lift at 1. rewrite Hns.
  unfold bind at 1. unfold lift at 1. rewrite (PyFacts.getattr_Some _ _ _ Htc).
  unfold bind at 1. unfold lift at 1. simpl range. cbv iota.
  unfold bind at 1. fold (dispatch E self job (seq 0 (Z.to_nat z))).
  destruct (dispatch _ _ _ _ σ) as [σ' [[]|e]]; [|done].
  apply shutdown_loop.
Qed.

Lemma run_in_range self jd job N l σ :
  namespace jd = Ok job →
  dict_get "total_calls" job = Some (VInt (Z.of_nat N)) →
  has_fields job → dict_get "data_ranges" job = Some (VList l) →
  N ≤ length l →
  ∃ ps, run E self jd σ
          = (advance ((Payload <$> ps)
                        ++ replicate (length (workers self)) ShutdownSentinel)
               N σ, Ok tt)
        ∧ length ps = N ∧ payloads_from E self job l 0 (ticks σ) ps.
Proof.
  intros Hns Htc Hf Hl HN.
  destruct (dispatch_in_range E self job l N 0 σ Hf Hl ltac:(lia))
    as (ps & Hps & Hlen & Hfrom).
  exists ps. rewrite (run_dispatch _ _ _ _ _ Hns Htc), Nat2Z.id, Hps.
  by rewrite advance_advance, Nat.add_0_r.
Qed.

Lemma run_overflow self jd job N l σ :
  namespace jd = Ok job →
  dict_get "total_calls" job = Some (VInt (Z.of_nat N)) →
  has_fields job → dict_get "data_ranges" job = Some (VList l) →
  length l < N →
  ∃ ps, run E self jd σ
          = (advance (Payload <$> ps) (length l) σ, Err IndexError)
        ∧ length ps = length l ∧ payloads_from E self job l 0 (ticks σ) ps.
Proof.
  intros Hns Htc Hf Hl HN.
  destruct (dispatch_overflow E self job l N 0 σ Hf Hl ltac:(lia) ltac:(lia))
    as (ps & Hps & Hlen & Hfrom).
  exists ps. rewrite (run_dispatch _ _ _ _ _ Hns Htc), Nat2Z.id, Hps.
  by rewrite Nat.sub_0_r in *.
Qed.

(** Whatever the job description, [run] puts payloads first and shutdown
    sentinels after them: one per worker when it returns, none when it
    raises. *)
Lemma run_shape self jd σ :
  ∃ ps m n r,
    run E self jd σ
      = (advance ((Payload <$> ps) ++ replicate m ShutdownSentinel) n σ, r)
    ∧ (is_Ok r → m = length (workers self))
    ∧ (¬ is_Ok r → m = 0).
Proof.
  unfold run. unfold bind at 1. unfold lift at 1.
  destruct (namespace jd) as [job|e]; simpl.
  2: { exists [], 0, 0, (Err e). rewrite advance_0.
       split; [done|]. split; [by intros ?%not_is_Ok_Err|done]. }
  unfold bind at 1. unfold lift at 1.
  destruct (getattr job "total_calls") as [tc|e]; simpl.
  2: { exists [], 0, 0, (Err e). rewrite advance_0.
       split; [done|]. split; [by intros ?%not_is_Ok_Err|done]. }
  unfold bind at 1. unfold lift at 1.
  destruct (range tc) as [indices|e]; simpl.
  2: { exists [], 0, 0, (Err e). rewrite advance_0.
       split; [done|]. split; [by intros ?%not_is_Ok_Err|done]. }
  unfold bind at 1.
  destruct (dispatch_shape E self job indices σ) as (ps & n & r & Hd).
  unfold dispatch in Hd. rewrite Hd. destruct r as [[]|e].
  - rewrite shutdown_loop, advance_advance, Nat.add_0_r.
    exists ps, (length (workers self)), n, (Ok tt).
    split; [done|]. split; [done|]. by intros [].
  - exists ps, 0, n, (Err e). simpl. rewrite app_nil_r.
    split; [done|]. split; [by intros ?%not_is_Ok_Err|done].
Qed.

Lemma start_loop (ids : list nat) : ∀ σ,
  for_each ids start_worker σ
  = ({| streams := streams σ; started := started σ ++ ids;
        puts := puts σ; ticks := ticks σ |}, Ok tt).
Proof.
  induction ids as [|w ids IH]; intros σ; simpl.
  - unfold ret. rewrite app_nil_r. by destruct σ.
  - unfold bind at 1. unfold start_worker at 1. rewrite IH. simpl.
    by rewrite <- app_assoc.
Qed.

Lemma init_no_workers job cfg e σ :
  worker_ids E cfg = Err e →
  ∃ σ', __init__ E job cfg σ = (σ', Err e)
        ∧ started σ' = started σ ∧ puts σ' = puts σ.
Proof.
  unfold worker_ids, __init__. intros H. unfold bind at 1. unfold lift at 1.
  destruct (configured_workers E cfg) as [nw|e']; simpl.
  - unfold bind at 1. unfold redirect_to at 1. unfold bind at 1.
    unfold lift at 1. rewrite H. eauto.
  - injection H as <-. eauto.
Qed.

Lemma init_started job cfg ids σ :
  worker_ids E cfg = Ok ids →
  ∃ r, __init__ E job cfg σ = (with_workers ids σ, r)
       ∧ (∀ self, r = Ok self → workers self = ids ∧ config self = cfg)
       ∧ (job = None → r = Err (NameError "job"))
       ∧ (∀ ns, job = Some ns → is_Some (dict_get "executor_id" ns) →
            is_Some (dict_get "job_id" ns) → is_Ok r).
Proof.
  unfold worker_ids, __init__. intros H. unfold bind at 1. unfold lift at 1.
  destruct (configured_workers E cfg) as [nw|e']; simpl; [|done].
  unfold bind at 1. unfold redirect_to at 1. unfold bind at 1.
  unfold lift at 1. rewrite H. unfold bind at 1. rewrite start_loop. simpl.
  fold (with_workers ids σ). unfold_monad.
  destruct job as [ns|]; simpl.
  - unfold getattr.
    destruct (dict_get "executor_id" ns) eqn:He; simpl.
    + destruct (dict_get "job_id" ns) eqn:Hj; simpl.
      * eexists. split; [done|]. split; [by intros ? [= <-]|].
        split; [done|]. by eexists.
      * eexists. split; [done|]. split; [done|]. split; [done|].
        intros ? [= <-] _ [? ?]. congruence.
    + eexists. split; [done|]. split; [done|]. split; [done|].
      intros ? [= <-] [? ?]. congruence.
  - eexists. split; [done|]. split; [done|]. split; [done|]. done.
Qed.

End RunFacts.

Section MainFacts.
Context (E : env).

Lemma main_run_not_loaded job_file e :
  load_job_file E job_file = Err e →
  ∃ σ', main_run E job_file fresh_proc = (σ', Err e)
        ∧ started σ' = [] ∧ puts σ' = [].
Proof.
  unfold load_job_file, main_run. intros H. unfold bind at 1. unfold lift at 1.
  destruct (namespace job_file) as [job|e']; simpl; [|injection H as <-; eauto].
  unfold bind at 1. unfold lift at 1.
  destruct (getattr job "executor_id") as [?|e']; simpl;
    [|injection H as <-; eauto].
  unfold bind at 1. unfold lift at 1.
  destruct (getattr job "job_id") as [?|e']; simpl; [|injection H as <-; eauto].
  unfold bind at 1. unfold lift at 1.
  destruct (getattr job "config") as [cfg|e']; simpl; [|injection H as <-; eauto].
  destruct (worker_ids E cfg) as [ids|e'] eqn:Hw; [done|]. injection H as <-.
  destruct (init_no_workers E (Some job) cfg e' fresh_proc Hw)
    as (σ' & Hinit & ? & ?).
  unfold bind at 1. rewrite Hinit. eauto.
Qed.

(** Once the job file is loaded, the constructor returns with its workers
    started, and what remains is [job.job_description] and [run]. *)
Lemma main_run_after_load job_file job cfg ids :
  load_job_file E job_file = Ok (job, cfg, ids) →
  ∃ self,
    workers self = ids ∧
    main_run E job_file fresh_proc =
    match getattr job "job_description" with
    | Ok jd =>
        match run E self jd (with_workers ids fresh_proc) with
        | (σ', Ok _) => (σ', Ok self)
        | (σ', Err e) => (σ', Err e)
        end
    | Err e => (with_workers ids fresh_proc, Err e)
    end.
Proof.
  unfold load_job_file, main_run. intros H. unfold bind at 1. unfold lift at 1.
  destruct (namespace job_file) as [job'|e']; simpl; [|done].
  unfold bind at 1. unfold lift at 1.
  destruct (getattr job' "executor_id") eqn:He; simpl; [|done].
  unfold bind at 1. unfold lift at 1.
  destruct (getattr job' "job_id") eqn:Hj; simpl; [|done].
  unfold bind at 1. unfold lift at 1.
  destruct (getattr job' "config") as [cfg'|] eqn:Hc; simpl; [|done].
  destruct (worker_ids E cfg') as [ids'|e'] eqn:Hw; [|done].
  injection H as <- <- <-.
  destruct (init_started E (Some job') cfg' ids' fresh_proc Hw)
    as (r & Hinit & Hself & _ & Hok).
  unfold getattr in He, Hj.
  destruct (Hok job' eq_refl) as [self ->].
  { destruct (dict_get "executor_id" job'); [by eexists|done]. }
  { destruct (dict_get "job_id" job'); [by eexists|done]. }
  destruct (Hself self eq_refl) as [Hws _]. exists self. split; [done|].
  unfold bind at 1. rewrite Hinit. unfold bind at 1. unfold lift at 1.
  destruct (getattr job' "job_description") as [jd|e]; [|done].
  unfold bind at 1. by destruct (run E self jd _) as [σ' [[]|e]].
Qed.

Lemma main_run_loaded job_file job cfg ids :
  load_job_file E job_file = Ok (job, cfg, ids) →
  ∃ (ps : list dict) m n r,
    main_run E job_file fresh_proc
      = (advance ((Payload <$> ps) ++ replicate m ShutdownSentinel) n
           (with_workers ids fresh_proc), r)
    ∧ (is_Ok r → m = length ids)
    ∧ (¬ is_Ok r → m = 0).
Proof.
  intros Hload.
  destruct (main_run_after_load _ _ _ _ Hload) as (self & Hws & ->).
  destruct (getattr job "job_description") as [jd|e].
  - destruct (run_shape E self jd (with_workers ids fresh_proc))
      as (ps & m & n & r & -> & Hm & Hm0).
    rewrite Hws in Hm. destruct r as [[]|e].
    + exists ps, m, n, (Ok self). split; [done|]. split; [auto|].
      intros Hn. by destruct Hn.
    + exists ps, m, n, (Err e). split; [done|].
      split; [by intros ?%not_is_Ok_Err|auto].
  - exists [], 0, 0, (Err e).
    rewrite advance_0. split; [done|]. split; [by intros ?%not_is_Ok_Err|done].
Qed.

(** The producer's puts, whatever the job file: payloads, then shutdown
    sentinels, one per started worker if the producer reaches [wait()]. *)
Lemma main_run_shape job_file :
  ∃ (ps : list dict) m,
    puts (main_run E job_file fresh_proc).1
      = (Payload <$> ps) ++ replicate m ShutdownSentinel
    ∧ (is_Ok (main_run E job_file fresh_proc).2 →
         m = length (started (main_run E job_file fresh_proc).1)).
Proof.
  destruct (load_job_file E job_file) as [[[job cfg] ids]|e] eqn:Hload.
  - destruct (main_run_loaded _ _ _ _ Hload) as (ps & m & n & r & -> & Hm & _).
    exists ps, m. simpl. auto.
  - destruct (main_run_not_loaded _ _ Hload) as (σ' & -> & _ & Hp).
    exists [], 0. simpl. split; [done|]. by intros ?%not_is_Ok_Err.
Qed.

End MainFacts.

(** ** Invariants of the pool *)

Section PoolFacts.
Context (E : env) (job_file : value) (fs0 : gmap string string).

Lemma reachable_ind (Q : sys → Prop) :
  Q (initial E job_file fs0) →
  (∀ s s', reachable E job_file fs0 s → step E job_file s s' → Q s → Q s') →
  ∀ s, reachable E job_file fs0 s → Q s.
Proof.
  intros H0 Hstep s Hr. unfold reachable in *.
  revert s Hr. apply (rtc_ind_r (R := step E job_file) Q); eauto.
Qed.

Lemma s_main_log_turn f s : s_main (log_turn f s) = s_main s.
Proof. by destruct f. Qed.
Lemma s_queue_log_turn f s : s_queue (log_turn f s) = s_queue s.
Proof. by destruct f. Qed.
Lemma s_workers_log_turn f s : s_workers (log_turn f s) = s_workers s.
Proof. by destruct f. Qed.
Lemma s_stdio_log_turn f s : s_stdio (log_turn f s) = s_stdio s.
Proof. by destruct f. Qed.
Lemma s_delivered_log_turn f s : s_delivered (log_turn f s) = s_delivered s.
Proof. by destruct f. Qed.
Lemma s_fs_log_turn f s : s_fs (log_turn f s) = s_fs s.
Proof. by destruct f. Qed.
Lemma s_touched_log_turn f s : s_touched (log_turn f s) = s_touched s.
Proof. by destruct f. Qed.

Ltac step_cases H :=
  inversion H; subst; clear H;
  rewrite ?s_main_log_turn, ?s_queue_log_turn, ?s_workers_log_turn,
    ?s_stdio_log_turn, ?s_delivered_log_turn, ?s_fs_log_turn,
    ?s_touched_log_turn;
  simpl in *.

Lemma reachable_fifo s : reachable E job_file fs0 s → fifo E job_file s.
Proof.
  revert s. apply reachable_ind; [|intros s s' _ Hstep [IH IHle]].
  { split; simpl; [by rewrite take_0|lia]. }
  unfold fifo. step_cases Hstep;
    repeat match goal with
           | H : s_main _ = _ |- _ => rewrite H in *; simpl in *
           end; try done.
  - pose proof (lookup_lt_Some _ _ _ H0).
    split; [|lia]. rewrite (take_S_r _ _ _ H0), <- IH. by rewrite app_assoc.
  - rewrite H1 in IH. rewrite fmap_app, <- app_assoc. done.
Qed.

(** The pool keeps its size. *)
Lemma reachable_workers s :
  reachable E job_file fs0 s →
  length (s_workers s) = length (started (producer E job_file).1)
  ∧ length (s_stdio s) = S (length (started (producer E job_file).1)).
Proof.
  revert s. apply reachable_ind; [|intros s s' _ Hstep [IH IH']].
  { simpl. by rewrite !length_replicate. }
  step_cases Hstep; rewrite ?length_insert; done.
Qed.



Lemma reachable_marker s : reachable E job_file fs0 s → marker_state E job_file fs0 s.
Proof.
  revert s. apply reachable_ind; [done|]. intros s s' _ Hstep IH.
  unfold marker_state in *. step_cases Hstep;
    repeat match goal with
           | H : s_main _ = _ |- _ => rewrite H in *; simpl in *
           end; try done.
  destruct IH as [-> ->]. eauto.
Qed.

Lemma reachable_scoped s :
  is_unix_system E = true →
  reachable E job_file fs0 s → scoped_streams E job_file s.
Proof.
  intros Hunix. revert s. apply reachable_ind.
  { intros w ws Hw. simpl in *. apply lookup_replicate in Hw as [-> Hw].
    simpl. apply lookup_replicate. split; [done|lia]. }
  intros s s' Hr Hstep IH.
  pose proof (reachable_workers s Hr) as [Hlen Hlen'].
  assert (∀ w, pid_of E w = S w) as Hpid.
  { intros w. unfold pid_of. by rewrite Hunix. }
  intros w' ws' Hw'. revert Hw'.
  step_cases Hstep; rewrite ?Hpid in *; try apply IH.
  all: pose proof (lookup_lt_Some _ _ _ H) as Hlt;
    destruct (decide (w = w')) as [->|Hne];
    [rewrite list_lookup_insert_eq by lia; intros [= <-];
     rewrite list_lookup_insert_eq by lia
    |rewrite list_lookup_insert_ne by done; intros Hw';
     rewrite list_lookup_insert_ne by lia; by apply IH].
  - specialize (IH _ _ H). simpl in IH. rewrite H0 in IH.
    injection IH as ->. by destruct (inherited E job_file).
  - specialize (IH _ _ H) as [_ ->].
    destruct (iteration E act_id ev); simpl; by destruct (inherited E job_file).
  - specialize (IH _ _ H) as [_ ->]. simpl. by destruct (inherited E job_file).
Qed.

End PoolFacts.

(** ** Schedules are executions *)

Section ScheduleFacts.
Context (E : env) (job_file : value) (fs0 : gmap string string).

Lemma exec_step a s s' : exec E job_file a s = Some s' → step E job_file s s'.
Proof.
  destruct a as [|w|w act_id|w]; simpl.
  - unfold exec_main. destruct (s_main s) as [k|j| | | |] eqn:Hm; try done.
    + destruct (puts (producer E job_file).1 !! k) as [ev|] eqn:Hk.
      * intros [= <-]. eapply step_put; eauto.
      * case_decide as Hlen; [|done]. subst k.
        destruct ((producer E job_file).2) as [self|e] eqn:Hp; intros [= <-].
        -- eapply step_dispatched; eauto.
        -- eapply step_dispatch_failed; eauto.
    + destruct (s_workers s !! j) as [ws|] eqn:Hj.
      * destruct (terminated ws) eqn:Ht; [|done]. intros [= <-].
        eapply step_join; eauto.
      * case_decide as Hlen; [|done]. subst j. intros [= <-].
        eapply step_wait_returns; eauto.
    + destruct (marker E job_file) as [path|e] eqn:Hp; intros [= <-].
      * eapply step_touch; eauto.
      * eapply step_touch_failed; eauto.
  - destruct (s_workers s !! w) as [[turn| | |]|] eqn:Hw; try done.
    destruct (s_stdio s !! pid_of E w) as [io|] eqn:Hio; [|done].
    intros [= <-]. eapply step_enter; eauto.
  - destruct (s_workers s !! w) as [[|turn sv| |]|] eqn:Hw; try done.
    destruct (s_stdio s !! pid_of E w) as [io|] eqn:Hio; [|done].
    destruct (s_queue s) as [|ev rest] eqn:Hq; [done|].
    intros [= <-]. eapply step_get; eauto.
  - destruct (s_workers s !! w) as [[|turn sv| |]|] eqn:Hw; try done.
    destruct (s_stdio s !! pid_of E w) as [io|] eqn:Hio; [|done].
    intros [= <-]. eapply step_interrupt; eauto.
Qed.

Lemma execs_reachable schedule : ∀ s s',
  reachable E job_file fs0 s → execs E job_file schedule s = Some s' →
  reachable E job_file fs0 s'.
Proof.
  induction schedule as [|a schedule IH]; intros s s' Hr; simpl.
  - by intros [= <-].
  - destruct (exec E job_file a s) as [s1|] eqn:Ha; [|done].
    apply IH. eapply rtc_r; [exact Hr|]. by apply (exec_step a).
Qed.

Lemma schedule_reachable schedule s :
  execs E job_file schedule (initial E job_file fs0) = Some s →
  reachable E job_file fs0 s.
Proof. apply execs_reachable. apply rtc_refl. Qed.

End ScheduleFacts.

(** ** The claims on the producer *)



(** C4, as the code has it.  For a job with [total_calls = N] whose
    attributes are all there and which has a byte range for each call: the
    payload of index [i] is the [i]-th one dispatched, it is the only one
    with the call id of [i], its keys are exactly [config], [log_level],
    [func_key], [data_key], [extra_env], [execution_timeout],
    [data_byte_range], [executor_id], [job_id], [call_id],
    [host_submit_tstamp], [lithops_version], [runtime_name] and
    [runtime_memory], and its [data_byte_range] is [data_ranges[i]].  A
    call id is the decimal text of its index filled with zeros up to five
    characters: exactly five below 100000, and [int] reads the index back. *)
Theorem dispatched_payloads E self jd job N l σ :
  namespace jd = Ok job →
  dict_get "total_calls" job = Some (VInt (Z.of_nat N)) →
  has_fields job →
  dict_get "data_ranges" job = Some (VList l) →
  N ≤ length l →
  ∃ ps,
    puts (run E self jd σ).1
      = puts σ ++ (Payload <$> ps)
          ++ replicate (length (workers self)) ShutdownSentinel
    ∧ length ps = N
    ∧ ∀ i, i < N →
        (∃ p r, ps !! i = Some p ∧ l !! i = Some r
                ∧ keys p = payload_keys
                ∧ dict_get "call_id" p = Some (VStr (format_05d i))
                ∧ dict_get "data_byte_range" p = Some r)
        ∧ (∀ j p, ps !! j = Some p →
             dict_get "call_id" p = Some (VStr (format_05d i)) → j = i)
        ∧ 5 ≤ String.length (format_05d i)
        ∧ (i < 10 ^ 5 → String.length (format_05d i) = 5)
        ∧ int (format_05d i) = Ok i.
Proof.
  intros Hns Htc Hf Hl HN.
  destruct (run_in_range E self jd job N l σ Hns Htc Hf Hl HN)
    as (ps & Hrun & Hlen & Hfrom).
  exists ps. rewrite Hrun. split; [done|]. split; [done|]. intros i Hi.
  split; [|split; [|split; [|split]]].
  - destruct (lookup_lt_is_Some_2 ps i ltac:(lia)) as [p Hp].
    destruct (Hfrom i p Hp) as (r & Hr & Hcp). exists p, r.
    by destruct Hcp.
  - intros j p Hp Hid. destruct (Hfrom j p Hp) as (r & _ & Hcp).
    destruct Hcp as [_ Hid' _ _ _ _ _ _]. simpl in Hid'.
    rewrite Hid in Hid'. injection Hid' as Hid'.
    symmetry. by apply PyFacts.format_05d_inj.
  - rewrite PyFacts.length_format_05d. lia.
  - apply PyFacts.length_format_05d_small.
  - apply PyFacts.int_format_05d.
Qed.

(** The statement above, on the job of the example. *)
Lemma dispatched_payloads_witness :
  (namespace (VDict Sample.three_calls) = Ok Sample.three_calls
   ∧ has_fields Sample.three_calls ∧ 3 ≤ 3)
  ∧ ∃ ps,
      puts (run Sample.unix Sample.self (VDict Sample.three_calls)
              fresh_proc).1
        = puts fresh_proc ++ (Payload <$> ps)
            ++ replicate (length (workers Sample.self)) ShutdownSentinel
      ∧ length ps = 3
      ∧ ∀ i, i < 3 →
          (∃ p r, ps !! i = Some p
                  ∧ [Sample.byte_range 0 9; Sample.byte_range 10 19;
                     Sample.byte_range 20 29] !! i = Some r
                  ∧ keys p = payload_keys
                  ∧ dict_get "call_id" p = Some (VStr (format_05d i))
                  ∧ dict_get "data_byte_range" p = Some r)
          ∧ (∀ j p, ps !! j = Some p →
               dict_get "call_id" p = Some (VStr (format_05d i)) → j = i)
          ∧ 5 ≤ String.length (format_05d i)
          ∧ (i < 10 ^ 5 → String.length (format_05d i) = 5)
          ∧ int (format_05d i) = Ok i.
Proof.
  assert (has_fields Sample.three_calls) as Hf.
  { repeat constructor; by eexists. }
  split; [by repeat split|].
  exact (dispatched_payloads Sample.unix Sample.self
           (VDict Sample.three_calls) Sample.three_calls 3
           [Sample.byte_range 0 9; Sample.byte_range 10 19;
            Sample.byte_range 20 29] fresh_proc
           eq_refl eq_refl Hf eq_refl (le_n 3)).
Defined.

(** C4 as stated fails twice: the payload has no key [version] (the key is
    [lithops_version]), and the call id of index 100000 has six characters
    where the one of index 0 has five. *)
Lemma payload_version_key_and_width :
  (∃ p rest,
     puts (run Sample.unix Sample.self (VDict Sample.three_calls)
             fresh_proc).1 = Payload p :: rest
     ∧ dict_get "version" p = None
     ∧ is_Some (dict_get "lithops_version" p))
  ∧ String.length (format_05d 0) = 5
  ∧ String.length (format_05d (10 ^ 5)) = 6.
Proof.
  split; [|split; vm_compute; reflexivity].
  eexists _, _. split; [vm_compute; reflexivity|].
  split; [reflexivity|by eexists].
Qed.

(** C9. [run] needs a byte range per call: with all attributes there and
    [data_ranges] a list, it returns exactly when the list has at least
    [total_calls] entries; when it has fewer, the payloads of the indices
    below its length are put, in order, and building the next one raises
    [IndexError], so that no shutdown sentinel is put. *)
Theorem run_needs_a_range_per_call E self jd job N l σ :
  namespace jd = Ok job →
  dict_get "total_calls" job = Some (VInt (Z.of_nat N)) →
  has_fields job →
  dict_get "data_ranges" job = Some (VList l) →
  ((run E self jd σ).2 = Ok tt ↔ N ≤ length l)
  ∧ (length l < N →
     ∃ ps,
       run E self jd σ = (advance (Payload <$> ps) (length l) σ, Err IndexError)
       ∧ length ps = length l
       ∧ payloads_from E self job l 0 (ticks σ) ps
       ∧ _invoke E self job (format_05d (length l))
           (advance (Payload <$> ps) (length l) σ)
         = (advance (Payload <$> ps) (length l) σ, Err IndexError)).
Proof.
  intros Hns Htc Hf Hl. split.
  - split.
    + intros Hok. destruct (decide (N ≤ length l)) as [|Hgt]; [done|].
      destruct (run_overflow E self jd job N l σ Hns Htc Hf Hl ltac:(lia))
        as (ps & Hrun & _). by rewrite Hrun in Hok.
    + intros HN.
      destruct (run_in_range E self jd job N l σ Hns Htc Hf Hl HN)
        as (ps & Hrun & _). by rewrite Hrun.
  - intros HN.
    destruct (run_overflow E self jd job N l σ Hns Htc Hf Hl HN)
      as (ps & Hrun & Hlen & Hfrom).
    exists ps. split; [done|]. split; [done|]. split; [done|].
    apply (invoke_out_of_range E self job l); [done..|].
    by apply lookup_ge_None_2.
Qed.

(** The statement above, on the job of the example. *)
Lemma run_needs_a_range_per_call_witness :
  (namespace (VDict Sample.short_ranges) = Ok Sample.short_ranges
   ∧ has_fields Sample.short_ranges)
  ∧ ((run Sample.unix Sample.self (VDict Sample.short_ranges)
        fresh_proc).2 = Ok tt ↔ 3 ≤ 2)
  ∧ (2 < 3 →
     ∃ ps,
       run Sample.unix Sample.self (VDict Sample.short_ranges) fresh_proc
         = (advance (Payload <$> ps) 2 fresh_proc, Err IndexError)
       ∧ length ps = 2
       ∧ payloads_from Sample.unix Sample.self Sample.short_ranges
           [Sample.byte_range 0 9; Sample.byte_range 10 19] 0 0 ps
       ∧ _invoke Sample.unix Sample.self Sample.short_ranges
           (format_05d 2) (advance (Payload <$> ps) 2 fresh_proc)
         = (advance (Payload <$> ps) 2 fresh_proc, Err IndexError)).
Proof.
  assert (has_fields Sample.short_ranges) as Hf.
  { repeat constructor; by eexists. }
  split; [by repeat split|].
  exact (run_needs_a_range_per_call Sample.unix Sample.self
           (VDict Sample.short_ranges) Sample.short_ranges 3
           [Sample.byte_range 0 9; Sample.byte_range 10 19] fresh_proc
           eq_refl eq_refl Hf eq_refl).
Defined.

(** C10. The constructor reads [executor_id] and [job_id] from the
    module-level name [job], which is no parameter of it.  Where that name
    is not bound, constructing an executor from a config that gives a
    worker count raises [NameError], and every worker has been started by
    then. *)
Theorem init_without_job_global E cfg ids σ :
  worker_ids E cfg = Ok ids →
  __init__ E None cfg σ = (with_workers ids σ, Err (NameError "job")).
Proof.
  intros Hids.
  destruct (init_started E None cfg ids σ Hids) as (r & Hinit & _ & Hr & _).
  by rewrite Hinit, (Hr eq_refl).
Qed.

(** The statement above, on the job of the example. *)
Lemma init_without_job_global_witness :
  worker_ids Sample.unix Sample.cfg = Ok [0; 1]
  ∧ __init__ Sample.unix None Sample.cfg fresh_proc
    = (with_workers [0; 1] fresh_proc, Err (NameError "job")).
Proof.
  split; [reflexivity|].
  exact (init_without_job_global Sample.unix Sample.cfg [0; 1] fresh_proc
           eq_refl).
Defined.

(** C6, as the code has it.  A job file that is no mapping, that lacks
    [executor_id], [job_id] or [config], or whose config gives no worker
    count, stops the [run] branch before any worker is started and before
    anything is put on the queue.  Past that point every worker is
    started, whatever [job_description] holds: a job description that is
    missing, or that lacks an attribute, is only found out by [run]. *)
Theorem malformed_job_file E job_file :
  match load_job_file E job_file with
  | Err e =>
      ∃ σ', main_run E job_file fresh_proc = (σ', Err e)
            ∧ started σ' = [] ∧ puts σ' = []
  | Ok (job, cfg, ids) =>
      started (main_run E job_file fresh_proc).1 = ids
      ∧ (dict_get "job_description" job = None →
         main_run E job_file fresh_proc
         = (with_workers ids fresh_proc,
            Err (AttributeError "job_description")))
      ∧ (∀ jd d, dict_get "job_description" job = Some jd →
           namespace jd = Ok d → dict_get "total_calls" d = None →
           main_run E job_file fresh_proc
           = (with_workers ids fresh_proc, Err (AttributeError "total_calls")))
  end.
Proof.
  destruct (load_job_file E job_file) as [[[job cfg] ids]|e] eqn:Hload;
    [|by apply main_run_not_loaded].
  destruct (main_run_loaded E _ _ _ _ Hload) as (ps & m & n & r & Hrun & _).
  split; [by rewrite Hrun|]. clear Hrun.
  destruct (main_run_after_load E _ _ _ _ Hload) as (self & _ & ->).
  unfold getattr. split.
  - by intros ->.
  - intros jd d -> Hd Htc. unfold run.
    unfold bind at 1. unfold lift at 1. rewrite Hd.
    unfold bind at 1. unfold lift at 1. unfold getattr. by rewrite Htc.
Qed.

(** C6 as stated fails: for this job file, whose job description lacks
    [total_calls], the [run] branch raises only after it has started both
    workers. *)
Lemma job_description_checked_after_start :
  ∃ σ',
    main_run Sample.unix
      (Sample.file (VDict [("executor_id", VStr "a1/0")])) fresh_proc
    = (σ', Err (AttributeError "total_calls"))
    ∧ started σ' = [0; 1].
Proof. eexists. split; [vm_compute; reflexivity|reflexivity]. Qed.

(** ** The claim on capability discovery *)

Lemma entry_le_total : Total entry_le.
Proof.
  intros [n1 b1] [n2 b2]. unfold entry_le, entry_leb. simpl.
  rewrite (String.compare_antisym n1 n2).
  destruct (String.compare n2 n1); simpl; auto.
  destruct b1, b2; simpl; auto.
Qed.

Lemma compare_Lt_le (s1 s2 : string) :
  String.compare s1 s2 = Lt → (s1 ≤ s2)%string ∧ s1 ≠ s2.
Proof.
  intros H. split.
  - unfold String.le, String.leb. by rewrite H.
  - intros ->. pose proof (String.compare_antisym s2 s2) as Ha.
    rewrite H in Ha. discriminate.
Qed.

Lemma le_ne_compare_Lt (s1 s2 : string) :
  (s1 ≤ s2)%string → s1 ≠ s2 → String.compare s1 s2 = Lt.
Proof.
  unfold String.le, String.leb. intros Hle Hne.
  destruct (String.compare s1 s2) eqn:Hc; [|done..].
  by apply String.compare_eq_iff in Hc.
Qed.

Lemma compare_Lt_trans (s1 s2 s3 : string) :
  String.compare s1 s2 = Lt → String.compare s2 s3 = Lt →
  String.compare s1 s3 = Lt.
Proof.
  intros [H12 N12]%compare_Lt_le [H23 N23]%compare_Lt_le.
  apply le_ne_compare_Lt; [by etrans|].
  intros ->. apply N23. by apply (anti_symm String.le).
Qed.

Lemma entry_le_trans : Transitive entry_le.
Proof.
  intros [n1 b1] [n2 b2] [n3 b3]. unfold entry_le, entry_leb. simpl.
  destruct (String.compare n1 n2) eqn:H12; [| |done].
  - apply String.compare_eq_iff in H12 as ->.
    destruct (String.compare n2 n3); [|done..].
    by destruct b1, b2, b3.
  - destruct (String.compare n2 n3) eqn:H23; [| |done]; intros _ _.
    + apply String.compare_eq_iff in H23 as <-. by rewrite H12.
    + by rewrite (compare_Lt_trans _ _ _ H12 H23).
Qed.




(** ** The claims on the pool *)

Section QueueOrder.

(** In a list of payloads followed by sentinels, a sentinel is found only
    past the payloads, and past the payloads everything is a sentinel. *)
Lemma sentinel_position (ps : list dict) m i :
  ((Payload <$> ps) ++ replicate m ShutdownSentinel) !! i
    = Some ShutdownSentinel →
  length ps ≤ i.
Proof.
  intros Hi. destruct (decide (length ps ≤ i)) as [|Hlt]; [done|].
  rewrite lookup_app_l in Hi by (rewrite length_fmap; lia).
  rewrite list_lookup_fmap in Hi. by destruct (ps !! i).
Qed.

Lemma past_payloads (ps : list dict) m i ev :
  length ps ≤ i →
  ((Payload <$> ps) ++ replicate m ShutdownSentinel) !! i = Some ev →
  ev = ShutdownSentinel.
Proof.
  intros Hi Hev. rewrite lookup_app_r in Hev by (rewrite length_fmap; lia).
  by apply lookup_replicate in Hev as [-> _].
Qed.

Lemma payload_position (ps : list dict) m p :
  Payload p ∈ (Payload <$> ps) ++ replicate m ShutdownSentinel →
  ∃ j, ps !! j = Some p.
Proof.
  intros [Hin|Hin]%elem_of_app.
  - apply list_elem_of_fmap in Hin as (q & [= <-] & Hq).
    by apply list_elem_of_lookup.
  - by apply elem_of_replicate in Hin as [? _].
Qed.

(** What a prefix of the puts, split into the dequeued part [D] and the
    queue [Q], looks like around a sentinel. *)
Lemma fifo_sentinel (ps : list dict) m k (D Q : list event) :
  D ++ Q = take k ((Payload <$> ps) ++ replicate m ShutdownSentinel) →
  (∀ i, D !! i = Some ShutdownSentinel →
     ∀ j p, ps !! j = Some p → j < i ∧ D !! j = Some (Payload p))
  ∧ (∀ rest, Q = ShutdownSentinel :: rest →
       Forall (λ ev, ev = ShutdownSentinel) Q
       ∧ ∀ j p, ps !! j = Some p → D !! j = Some (Payload p)).
Proof.
  intros Hfifo.
  set (P := (Payload <$> ps) ++ replicate m ShutdownSentinel) in *.
  assert (∀ i ev, (D ++ Q) !! i = Some ev → P !! i = Some ev) as Hsub.
  { intros i ev. rewrite Hfifo. by intros [? _]%lookup_take_Some. }
  assert (∀ j p, ps !! j = Some p → j < length D →
            D !! j = Some (Payload p)) as Hpay.
  { intros j p Hj Hlt.
    destruct (lookup_lt_is_Some_2 D j Hlt) as [ev Hev].
    pose proof (Hsub j ev) as HP. rewrite lookup_app_l in HP by done.
    specialize (HP Hev). unfold P in HP.
    rewrite lookup_app_l in HP
      by (rewrite length_fmap; by eapply lookup_lt_Some).
    rewrite list_lookup_fmap, Hj in HP. simpl in HP. congruence. }
  split.
  - intros i Hi j p Hj. pose proof (lookup_lt_Some _ _ _ Hi) as HiD.
    pose proof (Hsub i ShutdownSentinel) as HP.
    rewrite lookup_app_l in HP by done.
    apply sentinel_position in HP; [|done].
    pose proof (lookup_lt_Some _ _ _ Hj). split; [lia|]. apply Hpay; [done|lia].
  - intros rest ->.
    pose proof (Hsub (length D) ShutdownSentinel) as HP.
    rewrite lookup_app_r, Nat.sub_diag in HP by done.
    apply sentinel_position in HP; [|done]. split.
    + apply Forall_lookup. intros t ev Ht.
      pose proof (Hsub (length D + t) ev) as HQ.
      rewrite lookup_app_r in HQ by lia.
      replace (length D + t - length D) with t in HQ by lia.
      apply (past_payloads ps m (length D + t)); [lia|by apply HQ].
    + intros j p Hj. pose proof (lookup_lt_Some _ _ _ Hj).
      apply Hpay; [done|lia].
Qed.

End QueueOrder.

(** C2. In every execution of a job, when a worker has dequeued a
    shutdown sentinel, every payload the job dispatches had been dequeued
    by some worker before; and when a sentinel is next on the work queue,
    no payload is left on the queue and every payload of the job has
    been handed to a worker. *)
Theorem no_sentinel_before_payloads E job_file fs0 s :
  reachable E job_file fs0 s →
  (∀ i w, s_delivered s !! i = Some (w, ShutdownSentinel) →
     ∀ p, Payload p ∈ puts (producer E job_file).1 →
       ∃ j w', j < i ∧ s_delivered s !! j = Some (w', Payload p))
  ∧ (∀ rest, s_queue s = ShutdownSentinel :: rest →
       Forall (λ ev, ev = ShutdownSentinel) (s_queue s)
       ∧ ∀ p, Payload p ∈ puts (producer E job_file).1 →
           ∃ w', (w', Payload p) ∈ s_delivered s).
Proof.
  intros Hr. destruct (reachable_fifo E job_file fs0 s Hr) as [Hfifo _].
  destruct (main_run_shape E job_file) as (ps & m & Hshape & _).
  fold (producer E job_file) in Hshape. rewrite Hshape in Hfifo.
  destruct (fifo_sentinel ps m _ _ _ Hfifo) as [Hhist Hhead].
  rewrite Hshape. split.
  - intros i w Hi p Hp. apply payload_position in Hp as [j Hj].
    destruct (Hhist i) with (j := j) (p := p) as [Hlt HD]; [|done|].
    { by rewrite list_lookup_fmap, Hi. }
    rewrite list_lookup_fmap in HD.
    destruct (s_delivered s !! j) as [[w' ev]|] eqn:Hd; [|done].
    simpl in HD. injection HD as ->. by exists j, w'.
  - intros rest Hq. destruct (Hhead rest Hq) as [Hall Hpay].
    split; [done|]. intros p Hp. apply payload_position in Hp as [j Hj].
    specialize (Hpay j p Hj). rewrite list_lookup_fmap in Hpay.
    destruct (s_delivered s !! j) as [[w' ev]|] eqn:Hd; [|done].
    simpl in Hpay. injection Hpay as ->. exists w'.
    by eapply list_elem_of_lookup_2.
Qed.

Lemma scenario_dispatched_reachable :
  reachable Sample.unix Scenario.job_file ∅ Scenario.dispatched_state.
Proof.
  apply (schedule_reachable _ _ _ Scenario.dispatch_all).
  vm_compute. reflexivity.
Qed.

Lemma scenario_final_reachable :
  reachable Sample.unix Scenario.job_file ∅ Scenario.final_state.
Proof.
  apply (schedule_reachable _ _ _ (Scenario.dispatch_all ++ Scenario.drain)).
  vm_compute. reflexivity.
Qed.

(** The statement above, on the job of the example. *)
Lemma no_sentinel_before_payloads_witness :
  reachable Sample.unix Scenario.job_file ∅ Scenario.dispatched_state
  ∧ (∀ i w, s_delivered Scenario.dispatched_state !! i
              = Some (w, ShutdownSentinel) →
       ∀ p, Payload p ∈ puts (producer Sample.unix Scenario.job_file).1 →
         ∃ j w', j < i
                 ∧ s_delivered Scenario.dispatched_state !! j
                   = Some (w', Payload p))
  ∧ (∀ rest, s_queue Scenario.dispatched_state = ShutdownSentinel :: rest →
       Forall (λ ev, ev = ShutdownSentinel)
         (s_queue Scenario.dispatched_state)
       ∧ ∀ p, Payload p ∈ puts (producer Sample.unix Scenario.job_file).1 →
           ∃ w', (w', Payload p) ∈ s_delivered Scenario.dispatched_state).
Proof.
  split; [exact scenario_dispatched_reachable|].
  exact (no_sentinel_before_payloads Sample.unix Scenario.job_file ∅
           Scenario.dispatched_state scenario_dispatched_reachable).
Defined.

(** C3, as the code has it.  For a payload as [_invoke] builds it, what a
    worker does after [function_handler] depends on how it ends.  When it
    returns, the worker formats the activation block, appends it to the
    function log and goes back to the head of the loop.  When it raises
    [KeyboardInterrupt], the worker leaves the loop.  When it raises
    anything else, the exception leaves [_process_runner]: the worker is
    over, and nothing is appended for that call. *)
Theorem handler_outcome_decides_turn E act_id p lvl extra_env rn out r turn s :
  dict_get "log_level" p = Some lvl →
  dict_get "extra_env" p = Some (VDict extra_env) →
  dict_get "runtime_name" p = Some rn →
  function_handler E (local_event extra_env p) = (out, r) →
  match r with
  | None =>
      iteration E act_id (Payload p)
        = Continue (activation_block (py_str E rn) act_id out)
      ∧ after_turn turn (iteration E act_id (Payload p)) = AtLoop (S turn)
      ∧ s_fn_log (log_turn (iteration E act_id (Payload p)) s)
        = s_fn_log s ++ [activation_block (py_str E rn) act_id out]
  | Some KeyboardInterrupt =>
      iteration E act_id (Payload p) = Break
      ∧ after_turn turn (iteration E act_id (Payload p)) = Returned
      ∧ s_fn_log (log_turn (iteration E act_id (Payload p)) s) = s_fn_log s
  | Some e =>
      iteration E act_id (Payload p) = Propagate e
      ∧ after_turn turn (iteration E act_id (Payload p)) = Crashed e
      ∧ s_fn_log (log_turn (iteration E act_id (Payload p)) s) = s_fn_log s
  end.
Proof.
  intros Hlvl Henv Hrn Hfh.
  assert (dict_get "runtime_name" (local_event extra_env p) = Some rn) as Hrn'.
  { unfold local_event. by rewrite PyFacts.dict_get_set_ne. }
  unfold iteration, guarded. simpl. rewrite Hlvl, Henv. simpl.
  fold (local_event extra_env p). rewrite Hfh.
  destruct r as [e|]; [by destruct e|]. by rewrite Hrn'.
Qed.

(** The statement above, on the job of the example. *)
Lemma handler_outcome_decides_turn_witness :
  ∃ p,
    s_delivered Scenario.final_state !! 1 = Some (1, Payload p)
    ∧ function_handler Sample.unix (local_event [] p)
      = ("", Some (Raised "ZeroDivisionError"))
    ∧ iteration Sample.unix "0e93b1c4d2a8" (Payload p)
      = Propagate (Raised "ZeroDivisionError")
    ∧ after_turn 0 (iteration Sample.unix "0e93b1c4d2a8" (Payload p))
      = Crashed (Raised "ZeroDivisionError")
    ∧ s_fn_log (log_turn (iteration Sample.unix "0e93b1c4d2a8" (Payload p))
                  Scenario.dispatched_state)
      = s_fn_log Scenario.dispatched_state.
Proof.
  eexists. split; [vm_compute; reflexivity|]. split; [reflexivity|].
  apply (handler_outcome_decides_turn Sample.unix "0e93b1c4d2a8" _
           (VStr "INFO") [] (VStr "python3") ""
           (Some (Raised "ZeroDivisionError")) 0 Scenario.dispatched_state);
    reflexivity.
Defined.

(** C3 as stated fails: the handler of the example raises on the call
    ["00001"]; the worker that dequeued it is over after that turn, and the
    function log has the blocks of the two other calls only. *)
Lemma worker_ends_on_handler_exception :
  ∃ p,
    s_delivered Scenario.final_state !! 1 = Some (1, Payload p)
    ∧ dict_get "call_id" p = Some (VStr "00001")
    ∧ (function_handler Sample.unix (local_event [] p)).2
      = Some (Raised "ZeroDivisionError")
    ∧ (∀ act_id block,
         iteration Sample.unix act_id (Payload p) ≠ Continue block)
    ∧ (∀ act_id turn,
         terminated (after_turn turn (iteration Sample.unix act_id (Payload p)))
         = true)
    ∧ s_workers Scenario.final_state !! 1
      = Some (Crashed (Raised "ZeroDivisionError"))
    ∧ length (s_fn_log Scenario.final_state) = 2.
Proof.
  eexists. split; [vm_compute; reflexivity|]. split; [reflexivity|].
  split; [reflexivity|]. split; [by intros ? ?|]. split; [by intros ? ?|].
  split; vm_compute; reflexivity.
Qed.






(** With one process per worker the capture scope is exact: in every
    execution, a worker that is not inside the scope, whether it is between
    two turns, has left the loop or has been ended by an exception, has the
    streams it was started with. *)
Lemma process_workers_restore_streams E job_file fs0 s w ws :
  is_unix_system E = true →
  reachable E job_file fs0 s →
  s_workers s !! w = Some ws →
  (∀ turn sv, ws ≠ InScope turn sv) →
  s_stdio s !! S w = Some (inherited E job_file).
Proof.
  intros Hunix Hr Hw Hout.
  pose proof (reachable_scoped E job_file fs0 s Hunix Hr w ws Hw) as Hs.
  destruct ws; try done. by destruct (Hout turn sv).
Qed.

(** One turn of a worker that has its streams to itself leaves them as it
    found them, however the turn ends. *)
Lemma scoped_iteration_restores E buf act_id ev io :
  (scoped_iteration E buf act_id ev io).1 = io.
Proof. unfold scoped_iteration. simpl. by destruct io. Qed.

(** C8 fails for thread workers.  Two threads and a job without calls:
    both workers enter their capture scope before the sentinels arrive, the
    second one keeping the buffer of the first as the stream to put back.
    When the run is over, with both workers returned and the marker
    touched, [sys.stdout] and [sys.stderr] of the handler process are still
    the buffer of the first turn of worker 0. *)
Theorem thread_workers_leave_streams_redirected :
  reachable Sample.threads Scenario.idle_job_file ∅ Scenario.idle_final_state
  ∧ s_main Scenario.idle_final_state = Finished
  ∧ s_workers Scenario.idle_final_state = [Returned; Returned]
  ∧ inherited Sample.threads Scenario.idle_job_file
    = {| sys_stdout := LogFileStream; sys_stderr := LogFileStream |}
  ∧ s_stdio Scenario.idle_final_state !! pid_of Sample.threads 1
    = Some {| sys_stdout := Buffer 0 0; sys_stderr := Buffer 0 0 |}.
Proof.
  split.
  { apply (schedule_reachable _ _ _ Scenario.idle_threads).
    vm_compute. reflexivity. }
  repeat split; vm_compute; reflexivity.
Qed.

(** ** More on the pool's streams *)

Section StreamFacts.
Context (E : env) (job_file : value) (fs0 : gmap string string).

Lemma pid_of_inj w w' :
  alone_in_scope E job_file →
  w < length (started (producer E job_file).1) →
  w' < length (started (producer E job_file).1) →
  pid_of E w = pid_of E w' → w = w'.
Proof.
  unfold alone_in_scope, pid_of. intros [->| Hone] Hw Hw'; [congruence|lia].
Qed.

(** The streams of each worker's process are a function of where that worker
    is, as long as no two workers share them. *)
Lemma reachable_alone s :
  alone_in_scope E job_file →
  reachable E job_file fs0 s → exact_scopes E job_file s.
Proof.
  intros Halone. revert s.
  apply (reachable_ind E job_file fs0 (exact_scopes E job_file)).
  { intros w ws Hw. unfold initial in *. cbn [s_workers s_stdio] in *.
    apply lookup_replicate in Hw as [-> Hw].
    split; [|done]. apply lookup_replicate. split; [done|].
    unfold pid_of. destruct (is_unix_system E); lia. }
  intros s s' Hr Hstep IH.
  pose proof (reachable_workers E job_file fs0 s Hr) as [Hlen Hlen'].
  assert (∀ w, w < length (s_workers s) → pid_of E w < length (s_stdio s))
    as Hpid.
  { intros w Hw. unfold pid_of. destruct (is_unix_system E); lia. }
  intros w' ws' Hw'. revert Hw'.
  inversion Hstep; subst; clear Hstep;
    rewrite ?s_workers_log_turn, ?s_stdio_log_turn; simpl; try apply IH.
  all: pose proof (lookup_lt_Some _ _ _ H) as Hlt;
    destruct (decide (w = w')) as [->|Hne];
    [rewrite list_lookup_insert_eq by lia; intros [= <-];
     rewrite list_lookup_insert_eq by (apply Hpid; lia)
    |rewrite list_lookup_insert_ne by done; intros Hw';
     rewrite list_lookup_insert_ne;
     [by apply IH
     |intros Heq; apply Hne; apply pid_of_inj;
      [done|lia|apply lookup_lt_Some in Hw'; lia|done]]].
  - destruct (IH _ _ H) as [IHs _]. simpl in IHs. rewrite H0 in IHs.
    injection IHs as ->. split; [done|]. intros ? ? [= <- <-].
    by destruct (inherited E job_file).
  - destruct (IH _ _ H) as [_ IHsv]. rewrite (IHsv _ _ eq_refl).
    split; [|by destruct (iteration E act_id ev)].
    destruct (iteration E act_id ev); simpl; by destruct (inherited E job_file).
  - destruct (IH _ _ H) as [_ IHsv]. rewrite (IHsv _ _ eq_refl).
    split; [|done]. simpl. by destruct (inherited E job_file).
Qed.

End StreamFacts.

(** X1. As long as no two workers share their streams (process workers, or a
    single thread), the capture scope is exact in every execution: outside
    the scope (between two turns, after a break, after an exception left the
    loop) the worker's process has the streams the worker was started with,
    and inside it both streams are the buffer of that turn. *)
Theorem capture_scope_exact E job_file fs0 s w ws :
  alone_in_scope E job_file →
  reachable E job_file fs0 s →
  s_workers s !! w = Some ws →
  s_stdio s !! pid_of E w = Some (streams_of_worker E job_file w ws).
Proof.
  intros Halone Hr Hw.
  by destruct (reachable_alone E job_file fs0 s Halone Hr w ws Hw).
Qed.

(** The statement above, on the run of the example. *)
Lemma capture_scope_exact_witness :
  alone_in_scope Sample.unix Scenario.job_file
  ∧ reachable Sample.unix Scenario.job_file ∅ Scenario.final_state
  ∧ s_workers Scenario.final_state !! 1
    = Some (Crashed (Raised "ZeroDivisionError"))
  ∧ s_stdio Scenario.final_state !! pid_of Sample.unix 1
    = Some (streams_of_worker Sample.unix Scenario.job_file 1
              (Crashed (Raised "ZeroDivisionError"))).
Proof.
  split; [by left|]. split; [exact scenario_final_reachable|].
  split; [vm_compute; reflexivity|].
  exact (capture_scope_exact Sample.unix Scenario.job_file ∅
           Scenario.final_state 1 (Crashed (Raised "ZeroDivisionError"))
           (or_introl eq_refl) scenario_final_reachable eq_refl).
Defined.

(** ** More invariants of the pool *)

Section MorePoolFacts.
Context (E : env) (job_file : value) (fs0 : gmap string string).

Lemma reachable_sentinel_is_last s :
  reachable E job_file fs0 s → sentinel_is_last s.
Proof.
  revert s. apply (reachable_ind E job_file fs0 sentinel_is_last).
  { intros i w Hi. simpl in Hi. by rewrite lookup_nil in Hi. }
  intros s s' Hr Hstep IH.
  pose proof (reachable_workers E job_file fs0 s Hr) as [Hlen _].
  intros i w0. inversion Hstep; subst; clear Hstep;
    rewrite ?s_workers_log_turn, ?s_delivered_log_turn; simpl; try apply IH.
  - intros Hi. destruct (IH i w0 Hi) as [Hret Hlast]. split; [|done].
    rewrite list_lookup_insert_ne; [done|]. intros ->. congruence.
  - pose proof (lookup_lt_Some _ _ _ H) as Hlt. intros Hi.
    apply lookup_app_Some in Hi as [Hi|[Hge Hi]].
    + destruct (IH i w0 Hi) as [Hret Hlast].
      assert (w ≠ w0) by (intros ->; congruence).
      split; [by rewrite list_lookup_insert_ne|].
      intros j ev' Hj Hjw. apply lookup_app_Some in Hjw as [Hjw|[_ Hjw]].
      * by apply (Hlast j ev').
      * apply list_lookup_singleton_Some in Hjw as [_ [= -> ->]]. done.
    + apply list_lookup_singleton_Some in Hi as [Hi0 [= -> ->]].
      split; [by rewrite list_lookup_insert_eq by lia|].
      intros j ev' Hj Hjw. apply lookup_lt_Some in Hjw.
      rewrite length_app in Hjw. simpl in Hjw. lia.
  - intros Hi. destruct (IH i w0 Hi) as [Hret Hlast]. split; [|done].
    rewrite list_lookup_insert_ne; [done|]. intros ->. congruence.
Qed.

Lemma calls_taken_app ds ds' :
  calls_taken (ds ++ ds') = calls_taken ds ++ calls_taken ds'.
Proof. apply omap_app. Qed.

Lemma reachable_dispatch_outcome s :
  reachable E job_file fs0 s → dispatch_outcome E job_file s.
Proof.
  revert s. apply (reachable_ind E job_file fs0 (dispatch_outcome E job_file));
    [done|].
  intros s s' _ Hstep IH. unfold dispatch_outcome in *.
  inversion Hstep; subst; clear Hstep; rewrite ?s_main_log_turn; simpl;
    repeat match goal with
           | H : s_main _ = _ |- _ => rewrite H in *; simpl in *
           end; try done.
  rewrite H0. by eexists.
Qed.

End MorePoolFacts.

Section PoolConsequences.
Context (E : env) (job_file : value) (fs0 : gmap string string).

Lemma length_calls_taken ds : length (calls_taken ds) ≤ length ds.
Proof.
  induction ds as [|[w [p|]] ds IH]; simpl; [lia| |];
    unfold calls_taken in *; simpl; lia.
Qed.

Lemma reachable_log_bounded s : reachable E job_file fs0 s → log_bounded s.
Proof.
  revert s. apply (reachable_ind E job_file fs0 log_bounded).
  { unfold log_bounded. simpl. lia. }
  intros s s' _ Hstep IH. unfold log_bounded in *.
  inversion Hstep; subst; clear Hstep; simpl; try done.
  rewrite s_delivered_log_turn. simpl. rewrite calls_taken_app, length_app.
  destruct (iteration E act_id ev) as [block| |e] eqn:Hturn; simpl;
    rewrite ?length_app; simpl; try lia.
  destruct ev as [p|]; [simpl; lia|done].
Qed.

Lemma main_run_puts_on_error :
  ¬ is_Ok (producer E job_file).2 →
  ∃ ps : list dict, puts (producer E job_file).1 = Payload <$> ps.
Proof.
  unfold producer. intros Herr.
  destruct (load_job_file E job_file) as [[[job cfg] ids]|e] eqn:Hload.
  - destruct (main_run_loaded E _ _ _ _ Hload) as (ps & m & n & r & Hrun & _ & Hm).
    rewrite Hrun in *. simpl in *. rewrite (Hm Herr). simpl.
    exists ps. by rewrite !app_nil_r.
  - destruct (main_run_not_loaded E _ _ Hload) as (σ' & -> & _ & Hp).
    exists []. simpl. by rewrite Hp.
Qed.



End PoolConsequences.

(** ** More properties of the pool *)

(** X2. Once the job file is loaded, the constructor has pointed
    [sys.stdout] and [sys.stderr] of the handler process to the stream
    opened on the log file, and with process workers they stay there for
    the whole run: nothing puts the console back. *)
Theorem handler_streams_stay_on_log_file E job_file fs0 job cfg ids s :
  load_job_file E job_file = Ok (job, cfg, ids) →
  is_unix_system E = true →
  reachable E job_file fs0 s →
  s_stdio s !! 0
  = Some {| sys_stdout := LogFileStream; sys_stderr := LogFileStream |}.
Proof.
  intros Hload Hunix.
  assert (inherited E job_file
          = {| sys_stdout := LogFileStream; sys_stderr := LogFileStream |})
    as Hin.
  { unfold inherited, producer.
    by destruct (main_run_loaded E _ _ _ _ Hload) as (? & ? & ? & ? & -> & _). }
  revert s.
  apply (reachable_ind E job_file fs0
           (λ s, s_stdio s !! 0
                 = Some {| sys_stdout := LogFileStream;
                           sys_stderr := LogFileStream |})).
  { unfold initial. cbn [s_stdio]. fold (inherited E job_file).
    rewrite Hin. reflexivity. }
  intros s s' _ Hstep IH.
  assert (∀ w, pid_of E w ≠ 0) as Hpid.
  { intros w. unfold pid_of. by rewrite Hunix. }
  inversion Hstep; subst; clear Hstep; rewrite ?s_stdio_log_turn; simpl;
    try done; by rewrite list_lookup_insert_ne.
Qed.

(** The statement above, on the run of the example. *)
Lemma handler_streams_stay_on_log_file_witness :
  load_job_file Sample.unix Scenario.job_file
  = Ok (match namespace Scenario.job_file with Ok d => d | Err _ => [] end,
        Sample.cfg, [0; 1])
  ∧ reachable Sample.unix Scenario.job_file ∅ Scenario.final_state
  ∧ s_stdio Scenario.final_state !! 0
    = Some {| sys_stdout := LogFileStream; sys_stderr := LogFileStream |}.
Proof.
  split; [reflexivity|]. split; [exact scenario_final_reachable|].
  exact (handler_streams_stay_on_log_file Sample.unix Scenario.job_file ∅
           _ Sample.cfg [0; 1] Scenario.final_state eq_refl eq_refl
           scenario_final_reachable).
Defined.

(** X3. Dequeuing a shutdown sentinel is final for a worker: in every
    execution a worker that has dequeued a sentinel has returned from
    [_process_runner], and it has dequeued nothing after that sentinel, so
    it takes one sentinel at most. *)
Theorem sentinel_ends_its_worker E job_file fs0 s i w :
  reachable E job_file fs0 s →
  s_delivered s !! i = Some (w, ShutdownSentinel) →
  s_workers s !! w = Some Returned
  ∧ ∀ j ev, s_delivered s !! j = Some (w, ev) → j ≤ i.
Proof.
  intros Hr Hi.
  destruct (reachable_sentinel_is_last E job_file fs0 s Hr i w Hi)
    as [Hret Hlast].
  split; [done|]. intros j ev Hj.
  destruct (decide (j ≤ i)) as [|Hlt]; [done|].
  by destruct (Hlast j ev ltac:(lia)).
Qed.

(** The statement above, on the run of the example. *)
Lemma sentinel_ends_its_worker_witness :
  reachable Sample.unix Scenario.job_file ∅ Scenario.final_state
  ∧ s_delivered Scenario.final_state !! 3 = Some (0, ShutdownSentinel)
  ∧ s_workers Scenario.final_state !! 0 = Some Returned
  ∧ ∀ j ev, s_delivered Scenario.final_state !! j = Some (0, ev) → j ≤ 3.
Proof.
  split; [exact scenario_final_reachable|].
  split; [vm_compute; reflexivity|].
  exact (sentinel_ends_its_worker Sample.unix Scenario.job_file ∅
           Scenario.final_state 3 0 scenario_final_reachable eq_refl).
Defined.

(** X4. The work queue hands items out in the order of the puts, each one
    once: in every execution the [i]-th item dequeued, by whichever worker,
    is the [i]-th item the producer has put, and the items still on the
    queue are the puts that follow, in order. *)
Theorem delivery_follows_dispatch E job_file fs0 s :
  reachable E job_file fs0 s →
  (∀ i w ev, s_delivered s !! i = Some (w, ev) →
     puts (producer E job_file).1 !! i = Some ev)
  ∧ (∀ i ev, s_queue s !! i = Some ev →
       puts (producer E job_file).1 !! (length (s_delivered s) + i) = Some ev)
  ∧ length (s_delivered s) + length (s_queue s)
    ≤ length (puts (producer E job_file).1).
Proof.
  intros Hr. destruct (reachable_fifo E job_file fs0 s Hr) as [Hfifo Hle].
  assert (∀ i ev, ((s_delivered s).*2 ++ s_queue s) !! i = Some ev →
            puts (producer E job_file).1 !! i = Some ev) as Hsub.
  { intros i ev. rewrite Hfifo. by intros [? _]%lookup_take_Some. }
  split; [|split].
  - intros i w ev Hi. apply Hsub. rewrite lookup_app_l.
    + by rewrite list_lookup_fmap, Hi.
    + rewrite length_fmap. by eapply lookup_lt_Some.
  - intros i ev Hi. apply Hsub. rewrite lookup_app_r; rewrite length_fmap; [|lia].
    by replace (length (s_delivered s) + i - length (s_delivered s)) with i
      by lia.
  - apply (f_equal length) in Hfifo.
    rewrite length_app, length_fmap, length_take in Hfifo. lia.
Qed.

(** The statement above, on the run of the example. *)
Lemma delivery_follows_dispatch_witness :
  reachable Sample.unix Scenario.job_file ∅ Scenario.dispatched_state
  ∧ (∀ i w ev, s_delivered Scenario.dispatched_state !! i = Some (w, ev) →
       puts (producer Sample.unix Scenario.job_file).1 !! i = Some ev)
  ∧ (∀ i ev, s_queue Scenario.dispatched_state !! i = Some ev →
       puts (producer Sample.unix Scenario.job_file).1
         !! (length (s_delivered Scenario.dispatched_state) + i) = Some ev)
  ∧ length (s_delivered Scenario.dispatched_state)
      + length (s_queue Scenario.dispatched_state)
    ≤ length (puts (producer Sample.unix Scenario.job_file).1).
Proof.
  split; [exact scenario_dispatched_reachable|].
  exact (delivery_follows_dispatch Sample.unix Scenario.job_file ∅
           Scenario.dispatched_state scenario_dispatched_reachable).
Defined.

(** X5. An activation block is only ever written for a dequeued call: in
    every execution the function log holds at most as many blocks as
    payloads have been dequeued, and these are at most the payloads the
    producer has put.  A sentinel adds no block. *)
Theorem log_blocks_bounded_by_calls E job_file fs0 s :
  reachable E job_file fs0 s →
  length (s_fn_log s) ≤ length (calls_taken (s_delivered s))
  ∧ length (calls_taken (s_delivered s)) ≤ length (s_delivered s)
  ∧ length (s_delivered s) ≤ length (puts (producer E job_file).1).
Proof.
  intros Hr. split; [by apply (reachable_log_bounded E job_file fs0)|].
  split; [apply length_calls_taken|].
  destruct (reachable_fifo E job_file fs0 s Hr) as [Hfifo Hle].
  apply (f_equal length) in Hfifo.
  rewrite length_app, length_fmap, length_take in Hfifo. lia.
Qed.

(** The statement above, on the run of the example. *)
Lemma log_blocks_bounded_by_calls_witness :
  reachable Sample.unix Scenario.job_file ∅ Scenario.final_state
  ∧ length (s_fn_log Scenario.final_state) = 2
  ∧ length (s_fn_log Scenario.final_state)
    ≤ length (calls_taken (s_delivered Scenario.final_state))
  ∧ length (calls_taken (s_delivered Scenario.final_state))
    ≤ length (s_delivered Scenario.final_state)
  ∧ length (s_delivered Scenario.final_state)
    ≤ length (puts (producer Sample.unix Scenario.job_file).1).
Proof.
  split; [exact scenario_final_reachable|]. split; [vm_compute; reflexivity|].
  exact (log_blocks_bounded_by_calls Sample.unix Scenario.job_file ∅
           Scenario.final_state scenario_final_reachable).
Defined.

(** X6. When an exception stops the producer before [wait()] (a malformed job
    file, a job description [run] cannot dispatch), no shutdown sentinel is
    ever put: in every execution no worker dequeues one and none is on the
    queue, [wait()] is never reached, and the completion marker is never
    touched. *)
Theorem failed_dispatch_never_signals E job_file fs0 s e :
  (producer E job_file).2 = Err e →
  reachable E job_file fs0 s →
  (∀ w, (w, ShutdownSentinel) ∉ s_delivered s)
  ∧ (ShutdownSentinel ∉ s_queue s)
  ∧ ((∃ k, s_main s = Dispatching k) ∨ s_main s = Failed e)
  ∧ s_touched s = [] ∧ s_fs s = fs0.
Proof.
  intros Herr Hr.
  assert (¬ is_Ok (producer E job_file).2) as Hnot.
  { rewrite Herr. apply not_is_Ok_Err. }
  destruct (main_run_puts_on_error E job_file Hnot) as [ps Hps].
  destruct (reachable_fifo E job_file fs0 s Hr) as [Hfifo _].
  assert (∀ ev, ev ∈ (s_delivered s).*2 ++ s_queue s → ev ≠ ShutdownSentinel)
    as Hnone.
  { intros ev. rewrite Hfifo, Hps. intros (i & Hi & _)%elem_of_take.
    rewrite list_lookup_fmap in Hi. destruct (ps !! i); [|done].
    simpl in Hi. by injection Hi as <-. }
  pose proof (reachable_dispatch_outcome E job_file fs0 s Hr) as Hout.
  pose proof (reachable_marker E job_file fs0 s Hr) as Hm.
  unfold dispatch_outcome, marker_state in *.
  split; [|split; [|split]].
  - intros w Hin. apply (Hnone ShutdownSentinel); [|done].
    apply elem_of_app. left. apply list_elem_of_fmap. by exists (w, ShutdownSentinel).
  - intros Hin. apply (Hnone ShutdownSentinel); [|done].
    apply elem_of_app. by right.
  - destruct (s_main s); try (by destruct Hnot); [eauto|].
    right. congruence.
  - by destruct (s_main s); try (by destruct Hnot).
Qed.

(** The statement above, on the job with two byte ranges for three calls. *)
Lemma failed_dispatch_never_signals_witness :
  (producer Sample.unix (Sample.file (VDict Sample.short_ranges))).2
  = Err IndexError
  ∧ reachable Sample.unix (Sample.file (VDict Sample.short_ranges)) ∅
      (initial Sample.unix (Sample.file (VDict Sample.short_ranges)) ∅)
  ∧ (∀ w, (w, ShutdownSentinel)
          ∉ s_delivered
              (initial Sample.unix (Sample.file (VDict Sample.short_ranges)) ∅))
  ∧ (ShutdownSentinel
     ∉ s_queue (initial Sample.unix (Sample.file (VDict Sample.short_ranges)) ∅))
  ∧ ((∃ k, s_main
             (initial Sample.unix (Sample.file (VDict Sample.short_ranges)) ∅)
           = Dispatching k)
     ∨ s_main (initial Sample.unix (Sample.file (VDict Sample.short_ranges)) ∅)
       = Failed IndexError)
  ∧ s_touched (initial Sample.unix (Sample.file (VDict Sample.short_ranges)) ∅)
    = []
  ∧ s_fs (initial Sample.unix (Sample.file (VDict Sample.short_ranges)) ∅) = ∅.
Proof.
  split; [vm_compute; reflexivity|]. split; [apply rtc_refl|].
  exact (failed_dispatch_never_signals Sample.unix
           (Sample.file (VDict Sample.short_ranges)) ∅ _ IndexError eq_refl
           (rtc_refl _ _)).
Defined.

(** X7. The marker's path needs [executor_id] to be a string: when the job
    file gives anything else there (a number, [null]), building the path
    raises [AttributeError], and whatever the pool has done, in no execution
    is the completion marker touched or the end of the branch reached. *)
Theorem marker_needs_string_executor_id E job_file fs0 job v s :
  namespace job_file = Ok job →
  dict_get "executor_id" job = Some v →
  (∀ text, v ≠ VStr text) →
  reachable E job_file fs0 s →
  marker E job_file = Err (AttributeError "replace")
  ∧ s_touched s = [] ∧ s_fs s = fs0 ∧ s_main s ≠ Finished.
Proof.
  intros Hns He Hv Hr.
  assert (marker E job_file = Err (AttributeError "replace")) as Hm.
  { unfold marker, sentinel_path, getattr. rewrite Hns, He.
    destruct v; try done. by destruct (Hv s0). }
  split; [done|].
  pose proof (reachable_marker E job_file fs0 s Hr) as Hs.
  unfold marker_state in Hs. destruct (s_main s); try by destruct Hs.
  destruct Hs as (path & Hp & _). congruence.
Qed.

(** The statement above, on a job file whose executor id is a number. *)
Lemma marker_needs_string_executor_id_witness :
  dict_get "executor_id"
    (match namespace Edge.numbered_file with Ok d => d | Err _ => [] end)
  = Some (VInt 7)
  ∧ reachable Sample.unix Edge.numbered_file ∅
      (initial Sample.unix Edge.numbered_file ∅)
  ∧ started (producer Sample.unix Edge.numbered_file).1 = [0; 1]
  ∧ marker Sample.unix Edge.numbered_file = Err (AttributeError "replace")
  ∧ s_touched (initial Sample.unix Edge.numbered_file ∅) = []
  ∧ s_fs (initial Sample.unix Edge.numbered_file ∅) = ∅
  ∧ s_main (initial Sample.unix Edge.numbered_file ∅) ≠ Finished.
Proof.
  split; [reflexivity|]. split; [apply rtc_refl|]. split; [reflexivity|].
  exact (marker_needs_string_executor_id Sample.unix Edge.numbered_file ∅ _
           (VInt 7) _ eq_refl eq_refl ltac:(discriminate) (rtc_refl _ _)).
Defined.



(** ** More on dispatch *)

(** X9. A job description with no call to make ([total_calls] zero or
    negative) needs nothing else: [run] reads no other attribute, puts no
    payload and puts one shutdown sentinel per worker. *)
Theorem run_without_calls E self jd job z σ :
  namespace jd = Ok job →
  dict_get "total_calls" job = Some (VInt z) →
  (z ≤ 0)%Z →
  run E self jd σ
  = (advance (replicate (length (workers self)) ShutdownSentinel) 0 σ, Ok tt).
Proof.
  intros Hns Htc Hz. rewrite (run_dispatch E self jd job z σ Hns Htc).
  replace (Z.to_nat z) with 0 by lia. reflexivity.
Qed.

(** The statement above, on a job description that holds [total_calls]
    alone. *)
Lemma run_without_calls_witness :
  (-3 ≤ 0)%Z
  ∧ run Sample.unix Sample.self (VDict [("total_calls", VInt (-3))]) fresh_proc
    = (advance (replicate 2 ShutdownSentinel) 0 fresh_proc, Ok tt).
Proof.
  split; [lia|].
  exact (run_without_calls Sample.unix Sample.self
           (VDict [("total_calls", VInt (-3))]) [("total_calls", VInt (-3))]
           (-3) fresh_proc eq_refl eq_refl ltac:(lia)).
Defined.

(** X10. [run] stops before it puts anything, sentinels included, when the
    job description is no mapping ([TypeError]), has no [total_calls]
    ([AttributeError]) or has one that [range] does not take, such as a
    float, a string or [null] ([TypeError]). *)
Theorem run_rejects_total_calls E self jd σ :
  match namespace jd with
  | Err _ => run E self jd σ = (σ, Err TypeError)
  | Ok job =>
      match dict_get "total_calls" job with
      | None => run E self jd σ = (σ, Err (AttributeError "total_calls"))
      | Some (VInt _) | Some (VBool _) => True
      | Some _ => run E self jd σ = (σ, Err TypeError)
      end
  end.
Proof.
  destruct (namespace jd) as [job|e] eqn:Hns.
  - destruct (dict_get "total_calls" job) as [tc|] eqn:Htc;
      [destruct tc; try done|];
      unfold run; unfold_monad; unfold getattr; rewrite Hns, Htc; done.
  - unfold run. unfold_monad. by destruct jd.
Qed.

Lemma for_each_ok {A} (xs : list A) (body : A → M unit) : ∀ σ σ',
  for_each xs body σ = (σ', Ok tt) →
  ∀ x, x ∈ xs → ∃ σ1 σ2, body x σ1 = (σ2, Ok tt).
Proof.
  induction xs as [|x xs IH]; intros σ σ' Hrun y Hy.
  - by apply elem_of_nil in Hy.
  - simpl in Hrun. unfold bind in Hrun.
    destruct (body x σ) as [σ1 [[]|e]] eqn:Hx; [|done].
    apply elem_of_cons in Hy as [->|Hy]; [eauto|]. by eapply IH.
Qed.

Lemma invoke_ok_inv E self job i σ σ' :
  _invoke E self job (format_05d i) σ = (σ', Ok tt) →
  has_fields job
  ∧ ∃ ranges r, dict_get "data_ranges" job = Some ranges
                ∧ getitem_int ranges i = Ok r.
Proof.
  unfold _invoke. unfold_monad. unfold getattr.
  rewrite PyFacts.int_format_05d.
  destruct (dict_get "func_key" job) eqn:H1; simpl; [|done].
  destruct (dict_get "data_key" job) eqn:H2; simpl; [|done].
  destruct (dict_get "extra_env" job) eqn:H3; simpl; [|done].
  destruct (dict_get "execution_timeout" job) eqn:H4; simpl; [|done].
  destruct (dict_get "data_ranges" job) as [ranges|] eqn:H5; simpl; [|done].
  destruct (getitem_int ranges i) as [r|] eqn:H6; simpl; [|done].
  destruct (dict_get "executor_id" job) eqn:H7; simpl; [|done].
  destruct (dict_get "job_id" job) eqn:H8; simpl; [|done].
  destruct (dict_get "runtime_name" job) eqn:H9; simpl; [|done].
  destruct (dict_get "runtime_memory" job) eqn:H10; simpl; [|done].
  intros _. split; [|by eauto].
  unfold has_fields, job_fields. repeat constructor; by eexists.
Qed.

(** X11. [run] returns only for a complete job: if it returns and there was
    at least one call to dispatch, the job description has every attribute
    [_invoke] reads, and [data_ranges] can be subscripted with the index of
    every call. *)
Theorem run_returns_only_for_complete_jobs E self jd job tc indices σ σ' :
  namespace jd = Ok job →
  dict_get "total_calls" job = Some tc →
  range tc = Ok indices →
  indices ≠ [] →
  run E self jd σ = (σ', Ok tt) →
  has_fields job
  ∧ ∃ ranges, dict_get "data_ranges" job = Some ranges
              ∧ ∀ i, i ∈ indices → is_Ok (getitem_int ranges i).
Proof.
  intros Hns Htc Hrange Hne. unfold run.
  unfold bind at 1. unfold lift at 1. rewrite Hns.
  unfold bind at 1. unfold lift at 1. unfold getattr at 1. rewrite Htc.
  unfold bind at 1. unfold lift at 1. rewrite Hrange.
  unfold bind at 1.
  destruct (for_each indices _ σ) as [σ1 [[]|e]] eqn:Hloop; [|done].
  intros _.
  pose proof (for_each_ok _ _ _ _ Hloop) as Hall.
  destruct indices as [|i0 indices]; [done|].
  destruct (Hall i0 ltac:(by left)) as (σa & σb & H0).
  destruct (invoke_ok_inv E self job i0 σa σb H0) as [Hf (ranges & r & Hr & _)].
  split; [done|]. exists ranges. split; [done|]. intros i Hi.
  destruct (Hall i Hi) as (σc & σd & Hi').
  destruct (invoke_ok_inv E self job i σc σd Hi') as [_ (ranges' & r' & Hr' & Hg)].
  rewrite Hr in Hr'. injection Hr' as <-. by exists r'.
Qed.

(** The statement above, on the job of the example. *)
Lemma run_returns_only_for_complete_jobs_witness :
  range (VInt 3) = Ok [0; 1; 2]
  ∧ (run Sample.unix Sample.self (VDict Sample.three_calls) fresh_proc).2
    = Ok tt
  ∧ has_fields Sample.three_calls
  ∧ ∃ ranges, dict_get "data_ranges" Sample.three_calls = Some ranges
              ∧ ∀ i, i ∈ [0; 1; 2] → is_Ok (getitem_int ranges i).
Proof.
  split; [reflexivity|]. split; [vm_compute; reflexivity|].
  exact (run_returns_only_for_complete_jobs Sample.unix Sample.self
           (VDict Sample.three_calls) Sample.three_calls (VInt 3) [0; 1; 2]
           fresh_proc
           (run Sample.unix Sample.self (VDict Sample.three_calls)
              fresh_proc).1
           eq_refl eq_refl eq_refl ltac:(discriminate)
           ltac:(vm_compute; reflexivity)).
Defined.

(** ** More on the worker's turn *)

Lemma keys_dict_set k v d :
  is_Some (dict_get k d) → keys (dict_set k v d) = keys d.
Proof.
  unfold keys. induction d as [|[k' v'] d IH]; simpl; [by intros [? ?]|].
  destruct (String.eqb k k') eqn:Hk; simpl.
  - apply String.eqb_eq in Hk as ->. done.
  - intros H. f_equal. by apply IH.
Qed.

(** X12. What a worker hands to [function_handler] is the payload it
    dequeued with one change: [extra_env] has gained (or has had set)
    ['__LITHOPS_LOCAL_EXECUTION'] = ['True'].  Every other entry of
    [extra_env], every other field of the payload and the order of its
    keys are as [_invoke] built them. *)
Theorem worker_marks_local_execution E p lvl extra_env :
  dict_get "log_level" p = Some lvl →
  dict_get "extra_env" p = Some (VDict extra_env) →
  guarded E p
  = match function_handler E (local_event extra_env p) with
    | (captured, None) => Ok (local_event extra_env p, captured)
    | (_, Some e) => Err e
    end
  ∧ keys (local_event extra_env p) = keys p
  ∧ (∀ k, k ≠ "extra_env" →
       dict_get k (local_event extra_env p) = dict_get k p)
  ∧ ∃ marked,
      dict_get "extra_env" (local_event extra_env p) = Some (VDict marked)
      ∧ dict_get "__LITHOPS_LOCAL_EXECUTION" marked = Some (VStr "True")
      ∧ ∀ k, k ≠ "__LITHOPS_LOCAL_EXECUTION" →
          dict_get k marked = dict_get k extra_env.
Proof.
  intros Hlvl Henv. split; [|split; [|split]].
  - unfold guarded. simpl. by rewrite Hlvl, Henv.
  - apply keys_dict_set. by eexists.
  - intros k Hk. by apply PyFacts.dict_get_set_ne.
  - eexists. split; [apply PyFacts.dict_get_set_eq|].
    split; [apply PyFacts.dict_get_set_eq|].
    intros k Hk. by apply PyFacts.dict_get_set_ne.
Qed.

(** The statement above, on the first payload of the example. *)
Lemma worker_marks_local_execution_witness :
  ∃ p,
    s_delivered Scenario.final_state !! 0 = Some (0, Payload p)
    ∧ dict_get "log_level" p = Some (VStr "INFO")
    ∧ dict_get "extra_env" p = Some (VDict [])
    ∧ guarded Sample.unix p
      = match function_handler Sample.unix (local_event [] p) with
        | (captured, None) => Ok (local_event [] p, captured)
        | (_, Some e) => Err e
        end
    ∧ keys (local_event [] p) = keys p
    ∧ (∀ k, k ≠ "extra_env" → dict_get k (local_event [] p) = dict_get k p)
    ∧ ∃ marked,
        dict_get "extra_env" (local_event [] p) = Some (VDict marked)
        ∧ dict_get "__LITHOPS_LOCAL_EXECUTION" marked = Some (VStr "True")
        ∧ ∀ k, k ≠ "__LITHOPS_LOCAL_EXECUTION" →
            dict_get k marked = dict_get k [].
Proof.
  eexists. split; [vm_compute; reflexivity|]. split; [reflexivity|].
  split; [reflexivity|].
  apply (worker_marks_local_execution Sample.unix _ (VStr "INFO") []);
    reflexivity.
Defined.

(** X13. A payload whose [extra_env] is no mapping ends the worker that
    dequeues it: the item assignment raises [TypeError] inside the [try],
    before [function_handler] is called, nothing but [KeyboardInterrupt] is
    caught, and no block is written.  [run] dispatches such a payload for
    any job whose [extra_env] is, say, [null]. *)
Theorem unusable_extra_env_ends_worker E act_id p lvl v turn s :
  dict_get "log_level" p = Some lvl →
  dict_get "extra_env" p = Some v →
  (∀ d, v ≠ VDict d) →
  iteration E act_id (Payload p) = Propagate TypeError
  ∧ after_turn turn (iteration E act_id (Payload p)) = Crashed TypeError
  ∧ s_fn_log (log_turn (iteration E act_id (Payload p)) s) = s_fn_log s.
Proof.
  intros Hlvl Henv Hv.
  assert (iteration E act_id (Payload p) = Propagate TypeError) as ->.
  { unfold iteration, guarded. simpl. rewrite Hlvl, Henv.
    destruct v; try done. by destruct (Hv d). }
  done.
Qed.

(** The statement above, on the payload [run] builds for a job whose
    [extra_env] is [null]. *)
Lemma unusable_extra_env_ends_worker_witness :
  ∃ p,
    puts (run Sample.unix Sample.self (VDict Edge.null_env) fresh_proc).1
    = [Payload p; ShutdownSentinel; ShutdownSentinel]
    ∧ dict_get "extra_env" p = Some VNone
    ∧ iteration Sample.unix "5f0c2a9d41b7" (Payload p) = Propagate TypeError
    ∧ after_turn 0 (iteration Sample.unix "5f0c2a9d41b7" (Payload p))
      = Crashed TypeError
    ∧ s_fn_log (log_turn (iteration Sample.unix "5f0c2a9d41b7" (Payload p))
                  Scenario.dispatched_state)
      = s_fn_log Scenario.dispatched_state.
Proof.
  eexists. split; [vm_compute; reflexivity|]. split; [reflexivity|].
  apply (unusable_extra_env_ends_worker Sample.unix "5f0c2a9d41b7" _
           (VStr "INFO") VNone 0 Scenario.dispatched_state);
    [reflexivity|reflexivity|discriminate].
Defined.

(** ** The activation block *)

Lemma append_assoc (s t u : string) : (s +:+ t) +:+ u = s +:+ t +:+ u.
Proof.
  induction s as [|a s IH]; [done|].
  change (String a ((s +:+ t) +:+ u) = String a (s +:+ t +:+ u)). by f_equal.
Qed.

Lemma replace_char_all_absent c new s :
  count_char c s = 0 → replace_char_all c new s = s.
Proof.
  induction s as [|a s IH]; simpl; [done|].
  destruct (Ascii.eqb a c); simpl; [done|]. intros H. by rewrite IH.
Qed.

Lemma replace_char_first_counted c new a rest :
  replace_char_first (count_char c a) c new (a +:+ rest)
  = replace_char_all c new a +:+ rest.
Proof.
  induction a as [|x a IH]; simpl.
  - by destruct rest.
  - destruct (Ascii.eqb x c) eqn:Hx; simpl.
    + rewrite ?Hx, IH. by rewrite append_assoc.
    + destruct (count_char c a) eqn:Hn.
      * by rewrite (replace_char_all_absent c new a Hn).
      * by rewrite ?Hx, IH.
Qed.

Lemma count_char_app c s t :
  count_char c (s +:+ t) = count_char c s + count_char c t.
Proof. induction s as [|a s IH]; simpl; [done|]. rewrite IH. lia. Qed.

(** X14. The block written for a call indents the captured text line by
    line, the last line apart.  With [before] the text up to the last
    newline and [last] what follows it, every newline of [before] is
    followed by four spaces and the last newline, with [last], is left as
    it is: text that ends in a newline gets every line indented, while a
    last line without its newline stays at the margin. *)
Theorem activation_block_indents runtime_name act_id before last :
  count_char "010" last = 0 →
  activation_block runtime_name act_id (before +:+ newline +:+ last)
  = "Activation: '" +:+ runtime_name +:+ "' (" +:+ act_id +:+ ")"
      +:+ newline +:+ "[" +:+ newline +:+ "    "
      +:+ (replace_char_all "010" (newline +:+ "    ") before
             +:+ newline +:+ last)
      +:+ "]" +:+ newline +:+ newline.
Proof.
  intros Hlast. unfold activation_block.
  rewrite count_char_app.
  change (count_char "010" (newline +:+ last))
    with (1 + count_char "010" last).
  rewrite Hlast.
  replace (Z.of_nat (count_char "010" before + (1 + 0)) - 1)%Z
    with (Z.of_nat (count_char "010" before)) by lia.
  unfold replace_char.
  destruct (Z.ltb_spec (Z.of_nat (count_char "010" before)) 0) as [|_]; [lia|].
  rewrite Nat2Z.id, replace_char_first_counted.
  by rewrite !append_assoc.
Qed.

(** The statement above, on two printed lines and on a last line without
    its newline. *)
Lemma activation_block_indents_witness :
  count_char "010" "" = 0
  ∧ activation_block "python3" "5f0c2a9d41b7"
      (("one" +:+ newline +:+ "two") +:+ newline +:+ "")
    = "Activation: 'python3' (5f0c2a9d41b7)" +:+ newline +:+ "[" +:+ newline
        +:+ "    one" +:+ newline +:+ "    two" +:+ newline
        +:+ "]" +:+ newline +:+ newline.
Proof.
  split; [reflexivity|].
  rewrite (activation_block_indents "python3" "5f0c2a9d41b7"
             ("one" +:+ newline +:+ "two") "" eq_refl).
  reflexivity.
Defined.

(** X15. Text without any newline is written as it is, after the four
    spaces that follow the header. *)
Theorem activation_block_single_line runtime_name act_id captured :
  count_char "010" captured = 0 →
  activation_block runtime_name act_id captured
  = "Activation: '" +:+ runtime_name +:+ "' (" +:+ act_id +:+ ")"
      +:+ newline +:+ "[" +:+ newline +:+ "    " +:+ captured
      +:+ "]" +:+ newline +:+ newline.
Proof.
  intros H. unfold activation_block. rewrite H. simpl Z.sub.
  unfold replace_char. simpl.
  rewrite replace_char_all_absent by done. by rewrite !append_assoc.
Qed.

(** The statement above, on a call that printed without a newline. *)
Lemma activation_block_single_line_witness :
  count_char "010" "no newline" = 0
  ∧ activation_block "python3" "5f0c2a9d41b7" "no newline"
    = "Activation: 'python3' (5f0c2a9d41b7)" +:+ newline +:+ "[" +:+ newline
        +:+ "    no newline" +:+ "]" +:+ newline +:+ newline.
Proof.
  split; [reflexivity|].
  rewrite (activation_block_single_line "python3" "5f0c2a9d41b7"
             "no newline" eq_refl).
  reflexivity.
Defined.

(** ** More on capability discovery *)

Lemma entry_le_antisymm : AntiSymm (=) entry_le.
Proof.
  intros [n1 b1] [n2 b2]. unfold entry_le, entry_leb. simpl.
  rewrite (String.compare_antisym n2 n1).
  destruct (String.compare n1 n2) eqn:H12; simpl; [|done..].
  apply String.compare_eq_iff in H12 as ->.
  by destruct b1, b2.
Qed.

(** X16. The list [extract_runtime_meta] emits depends on which modules are
    installed, not on how [pkgutil.iter_modules] goes through them: two
    enumerations with the same (name, is-package) pairs, in any order and
    from any finders, give the same [preinstalls] and the same output. *)
Theorem runtime_meta_order_independent E mods mods' :
  (λ m, (name m, ispkg m)) <$> mods ≡ₚ (λ m, (name m, ispkg m)) <$> mods' →
  sorted_entries mods = sorted_entries mods'
  ∧ extract_runtime_meta E mods = extract_runtime_meta E mods'.
Proof.
  intros Hperm.
  assert (sorted_entries mods = sorted_entries mods') as Heq.
  { unfold sorted_entries.
    apply (@Sorted_unique _ entry_le entry_le_trans entry_le_antisymm).
    - apply (@Sorted_merge_sort _ entry_le _ entry_le_total).
    - apply (@Sorted_merge_sort _ entry_le _ entry_le_total).
    - by rewrite !merge_sort_Permutation. }
  split; [done|]. unfold extract_runtime_meta, runtime_meta. by rewrite Heq.
Qed.

(** The statement above, on two modules listed in either order, by
    different finders. *)
Lemma runtime_meta_order_independent_witness :
  sorted_entries
    [{| module_finder := "/usr/lib/python3.8"; name := "json"; ispkg := true |};
     {| module_finder := "/usr/lib/python3.8"; name := "abc"; ispkg := false |}]
  = [("abc", false); ("json", true)]
  ∧ sorted_entries
      [{| module_finder := "/usr/lib/python3.8"; name := "json";
          ispkg := true |};
       {| module_finder := "/usr/lib/python3.8"; name := "abc";
          ispkg := false |}]
    = sorted_entries
        [{| module_finder := "/opt/site"; name := "abc"; ispkg := false |};
         {| module_finder := "/opt/site"; name := "json"; ispkg := true |}]
  ∧ extract_runtime_meta Sample.unix
      [{| module_finder := "/usr/lib/python3.8"; name := "json";
          ispkg := true |};
       {| module_finder := "/usr/lib/python3.8"; name := "abc";
          ispkg := false |}]
    = extract_runtime_meta Sample.unix
        [{| module_finder := "/opt/site"; name := "abc"; ispkg := false |};
         {| module_finder := "/opt/site"; name := "json"; ispkg := true |}].
Proof.
  split; [vm_compute; reflexivity|].
  apply (runtime_meta_order_independent Sample.unix).
  simpl. apply Permutation_swap.
Defined.

(** ** More on the marker's path *)

Lemma length_replace_char_all_one c d s :
  String.length (replace_char_all c (String d EmptyString) s) = String.length s.
Proof.
  induction s as [|a s IH]; [done|].
  change (String.length
            (if Ascii.eqb a c
             then String d (replace_char_all c (String d EmptyString) s)
             else String a (replace_char_all c (String d EmptyString) s))
          = S (String.length s)).
  destruct (Ascii.eqb a c); simpl; by f_equal.
Qed.

Lemma count_replace_char_all c d s :
  c ≠ d → count_char c (replace_char_all c (String d EmptyString) s) = 0.
Proof.
  intros Hne. induction s as [|a s IH]; [done|].
  change (count_char c
            (if Ascii.eqb a c
             then String d (replace_char_all c (String d EmptyString) s)
             else String a (replace_char_all c (String d EmptyString) s))
          = 0).
  destruct (Ascii.eqb a c) eqn:Ha;
    change (count_char c (String ?x ?r))
      with ((if Ascii.eqb x c then 1 else 0) + count_char c r);
    rewrite IH.
  - destruct (Ascii.eqb d c) eqn:Hd; [|done].
    apply Ascii.eqb_eq in Hd. congruence.
  - by rewrite Ha.
Qed.

(** X17. No slash of the executor id gets into the marker's path: what
    stands for the executor id there has the length of the id and no ['/']
    in it, each one having become a ['-'], so that ids such as ['a/b'] and
    ['a-b'] name the same marker. *)
Theorem marker_path_has_no_slash_of_executor_id v text :
  replace_slashes v = Ok text →
  ∃ executor_id,
    v = VStr executor_id
    ∧ count_char "/" text = 0
    ∧ String.length text = String.length executor_id
    ∧ replace_slashes (VStr text) = Ok text.
Proof.
  destruct v; try done. simpl. intros [= <-]. exists s.
  split; [done|]. split; [by apply count_replace_char_all|].
  split; [apply length_replace_char_all_one|].
  f_equal. apply replace_char_all_absent. by apply count_replace_char_all.
Qed.

(** The statement above, on an executor id with two slashes. *)
Lemma marker_path_has_no_slash_of_executor_id_witness :
  replace_slashes (VStr "a1/0/x") = Ok "a1-0-x"
  ∧ replace_slashes (VStr "a1-0-x") = Ok "a1-0-x"
  ∧ ∃ executor_id,
      VStr "a1/0/x" = VStr executor_id
      ∧ count_char "/" "a1-0-x" = 0
      ∧ String.length "a1-0-x" = String.length executor_id
      ∧ replace_slashes (VStr "a1-0-x") = Ok "a1-0-x".
Proof.
  split; [reflexivity|]. split; [reflexivity|].
  exact (marker_path_has_no_slash_of_executor_id (VStr "a1/0/x") "a1-0-x"
           eq_refl).
Defined.
